(** * Single-track schedule planner (streamlit_app.py)

    A shallow embedding of the helper functions of [streamlit_app.py]:
    [hhmm_to_minutes], [minutes_to_hhmm], [travel_time_minutes] and
    [build_schedule], together with the Python built-ins they rely on
    (the arithmetic and the comparisons of [int] and [float], [max],
    [round], [int], [str.split], the [02d] format).

    Numbers.  A Python number is an [int], of any size, or a [float],
    a binary64 value held as a primitive float.  Arithmetic on two
    ints is exact; as soon as one operand is a float the other is
    converted, which raises [OverflowError] for an int beyond the
    largest float, and the operation is the binary64 one, with its
    rounding, its infinities and its NaN.  Comparisons, also between
    an int and a float, compare the exact values.  The clock helper
    [minutes_to_hhmm] receives a finite number and is given its exact
    value, a rational.

    Text.  A Python [str] is held as the UTF-8 bytes of its
    characters, the way a string literal of this file holds it.  [int]
    reads the characters back, so that the decimal digits and the
    blanks of every script are accepted as they are by Python 3.11
    (Unicode 14), with its limit of 4300 digits.

    Errors.  A Python function that may raise returns [result]. *)

From Stdlib Require Import ZArith NArith QArith Qround Qminmax Qabs Lia Lqa Floats.
From Stdlib Require Import Bool List Ascii String.
Import ListNotations.

(* ================================================================== *)
(** ** Python run-time model *)

Module Py.

Local Open Scope Q_scope.

(** *** Exceptions *)

Inductive exn : Type :=
| ValueError
| ZeroDivisionError
| OverflowError.

Inductive result (A : Type) : Type :=
| Ok (a : A)
| Raise (e : exn).

Arguments Ok {A} a.
Arguments Raise {A} e.

Definition bind {A B : Type} (r : result A) (k : A -> result B) : result B :=
  match r with
  | Ok a => k a
  | Raise e => Raise e
  end.

Definition succeeds {A : Type} (r : result A) : Prop :=
  exists a, r = Ok a.

(** *** Numbers *)

(** A Python number: an [int] of any size or a binary64 [float]. *)
Inductive num : Type :=
| Int (z : Z)
| Float (f : float).

(** The float nearest to an int, ties to even. *)
Definition nearest_float (z : Z) : float :=
  SF2Prim (binary_normalize prec emax z 0 false).

(** The first magnitude that rounds beyond the largest float. *)
Definition float_limit : Z := 2 ^ 1024 - 2 ^ 970.

(** The conversion of an operand to [float] that mixed arithmetic
    performs; an int that rounds beyond the largest float raises
    [OverflowError]. *)
Definition to_float (x : num) : result float :=
  match x with
  | Float f => Ok f
  | Int z =>
      if (float_limit <=? Z.abs z)%Z then Raise OverflowError
      else Ok (nearest_float z)
  end.

(** [a + b], [a - b] and [a * b]: exact on two ints, else both
    operands as floats. *)
Definition arith (on_int : Z -> Z -> Z) (on_float : float -> float -> float)
    (a b : num) : result num :=
  match a, b with
  | Int x, Int y => Ok (Int (on_int x y))
  | _, _ =>
      match to_float a with
      | Raise e => Raise e
      | Ok fa =>
          match to_float b with
          | Raise e => Raise e
          | Ok fb => Ok (Float (on_float fa fb))
          end
      end
  end.

Definition add : num -> num -> result num := arith Z.add PrimFloat.add.
Definition sub : num -> num -> result num := arith Z.sub PrimFloat.sub.
Definition mul : num -> num -> result num := arith Z.mul PrimFloat.mul.

Definition is_zero (x : num) : bool :=
  match x with
  | Int z => (z =? 0)%Z
  | Float f => (f =? 0)%float
  end.

(** [x * y] and [x / y] with a float on the left: [y] is converted,
    and a zero divisor raises [ZeroDivisionError].  (A converted int
    is [0.0] only when the int is 0, so the divisor is tested as it
    was given.) *)
Definition float_mul (x : float) (y : num) : result float :=
  match to_float y with
  | Raise e => Raise e
  | Ok fy => Ok (x * fy)%float
  end.

Definition float_truediv (x : float) (y : num) : result float :=
  match to_float y with
  | Raise e => Raise e
  | Ok fy =>
      if is_zero y then Raise ZeroDivisionError else Ok (x / fy)%float
  end.

(** The numerator of a finite float over the common denominator
    [2 ^ 1074]. *)
Definition scaled (s : bool) (m : positive) (e : Z) : Z :=
  (if s then Z.neg m else Z.pos m) * 2 ^ (e + 1074).

(** An int against a float, by their exact values. *)
Definition compare_int_float (x : Z) (g : float) : option comparison :=
  match Prim2SF g with
  | S754_nan => None
  | S754_infinity s => Some (if s then Gt else Lt)
  | S754_zero _ => Some (x ?= 0)%Z
  | S754_finite s m e => Some (x * 2 ^ 1074 ?= scaled s m e)%Z
  end.

(** The order of two numbers; a NaN compares with nothing. *)
Definition compare (a b : num) : option comparison :=
  match a, b with
  | Int x, Int y => Some (x ?= y)%Z
  | Float f, Float g =>
      match (f ?= g)%float with
      | FEq => Some Eq
      | FLt => Some Lt
      | FGt => Some Gt
      | FNotComparable => None
      end
  | Int x, Float g => compare_int_float x g
  | Float f, Int y => option_map CompOpp (compare_int_float y f)
  end.

(** [a > b] and [a <= b]. *)
Definition gt (a b : num) : bool :=
  match compare a b with Some Gt => true | _ => false end.

Definition le (a b : num) : bool :=
  match compare a b with Some Lt | Some Eq => true | _ => false end.

(** [max(a, b)] with two positional arguments: the first one is kept
    unless the second compares strictly greater. *)
Definition max (a b : num) : num := if gt b a then b else a.

(** [round(x)] with one argument: the nearest integer, a tie going to
    the even neighbour. *)
Definition round (x : Q) : Z :=
  let f := Qfloor x in
  match Qcompare (x - inject_Z f) (1 # 2) with
  | Lt => f
  | Gt => (f + 1)%Z
  | Eq => if Z.even f then f else (f + 1)%Z
  end.

(** *** Text *)

Definition colon : ascii := ":"%char.

(** [s.split(sep)] for a one-character separator: the pieces between
    the occurrences of [sep], empty pieces included. *)
Fixpoint split (sep : ascii) (s : string) : list string :=
  match s with
  | EmptyString => [EmptyString]
  | String c rest =>
      if Ascii.eqb c sep then EmptyString :: split sep rest
      else match split sep rest with
           | [] => [String c EmptyString]
           | p :: ps => String c p :: ps
           end
  end.

(** The six low bits that a continuation byte carries. *)
Definition continuation (b : ascii) : option N :=
  let n := N_of_ascii b in
  if ((128 <=? n) && (n <? 192))%N then Some (n - 128)%N else None.

(** The characters of a text, as code points; [None] when the bytes
    are the encoding of no text. *)
Fixpoint code_points (s : string) : option (list N) :=
  match s with
  | EmptyString => Some []
  | String b0 s0 =>
      let n0 := N_of_ascii b0 in
      if (n0 <? 128)%N then option_map (cons n0) (code_points s0)
      else if (n0 <? 192)%N then None
      else if (n0 <? 224)%N then
        match s0 with
        | String b1 s1 =>
            match continuation b1 with
            | Some c1 =>
                let c := ((n0 - 192) * 64 + c1)%N in
                if (c <? 128)%N then None
                else option_map (cons c) (code_points s1)
            | None => None
            end
        | _ => None
        end
      else if (n0 <? 240)%N then
        match s0 with
        | String b1 (String b2 s2) =>
            match continuation b1, continuation b2 with
            | Some c1, Some c2 =>
                let c := (((n0 - 224) * 64 + c1) * 64 + c2)%N in
                if (c <? 2048)%N then None
                else option_map (cons c) (code_points s2)
            | _, _ => None
            end
        | _ => None
        end
      else if (n0 <? 248)%N then
        match s0 with
        | String b1 (String b2 (String b3 s3)) =>
            match continuation b1, continuation b2, continuation b3 with
            | Some c1, Some c2, Some c3 =>
                let c := ((((n0 - 240) * 64 + c1) * 64 + c2) * 64 + c3)%N in
                if ((c <? 65536) || (1114112 <=? c))%N then None
                else option_map (cons c) (code_points s3)
            | _, _, _ => None
            end
        | _ => None
        end
      else None
  end.

(** The characters [str.isspace] holds of. *)
Definition unicode_spaces : list N :=
  [9; 10; 11; 12; 13; 28; 29; 30; 31; 32; 133; 160; 5760; 8192; 8193; 8194;
   8195; 8196; 8197; 8198; 8199; 8200; 8201; 8202; 8232; 8233; 8239; 8287;
   12288]%N.

Definition is_unicode_space (c : N) : bool := existsb (N.eqb c) unicode_spaces.

(** The digits zero of the scripts of Unicode 14; the nine characters
    after each are its digits one to nine. *)
Definition decimal_zeros : list N :=
  [
   48; 1632; 1776; 1984; 2406; 2534; 2662; 2790; 2918; 3046; 3174;
   3302; 3430; 3558; 3664; 3792; 3872; 4160; 4240; 6112; 6160; 6470;
   6608; 6784; 6800; 6992; 7088; 7232; 7248; 42528; 43216; 43264;
   43472; 43504; 43600; 44016; 65296; 66720; 68912; 69734; 69872;
   69942; 70096; 70384; 70736; 70864; 71248; 71360; 71472; 71904;
   72016; 72784; 73040; 73120; 92768; 92864; 93008; 120782; 120792;
   120802; 120812; 120822; 123200; 123632; 125264; 130032
  ]%N.

Definition to_decimal (c : N) : option N :=
  option_map (fun z => c - z)%N
    (find (fun z => (z <=? c) && (c <? z + 10))%N decimal_zeros).

(** What [int] reads in place of a character: an ASCII character is
    kept, any other blank becomes a space, any other decimal digit its
    ASCII digit, and what is left a question mark. *)
Definition to_ascii (c : N) : N :=
  if (c <? 127)%N then c
  else if is_unicode_space c then 32%N
  else match to_decimal c with
       | Some d => (48 + d)%N
       | None => 63%N
       end.

(** White space of the ASCII text: TAB, LF, VT, FF, CR and the
    space. *)
Definition is_space (c : N) : bool :=
  ((9 <=? c) && (c <=? 13) || (c =? 32))%N.

Fixpoint lstrip (l : list N) : list N :=
  match l with
  | c :: l' => if is_space c then lstrip l' else l
  | [] => []
  end.

Definition digit_val (c : N) : option Z :=
  if ((48 <=? c) && (c <=? 57))%N then Some (Z.of_N (c - 48)) else None.

(** The digits, where single underscores may separate two of them:
    the number read so far, how many digits it has, whether the last
    character was a digit, and what is left when the digits end. *)
Fixpoint scan (acc count : Z) (prev : bool) (l : list N)
  : option (Z * Z * list N) :=
  match l with
  | [] => if prev then Some (acc, count, []) else None
  | c :: l' =>
      match digit_val c with
      | Some d => scan (10 * acc + d)%Z (count + 1)%Z true l'
      | None =>
          if (c =? 95)%N then (if prev then scan acc count false l' else None)
          else if prev then Some (acc, count, l) else None
      end
  end.

(** The interpreter's limit on the digits of a decimal text. *)
Definition max_str_digits : Z := 4300.

(** An optional sign. *)
Definition signed (l : list N) : bool * list N :=
  match l with
  | c :: l' =>
      if (c =? 45)%N then (true, l')
      else if (c =? 43)%N then (false, l')
      else (false, l)
  | [] => (false, l)
  end.

(** The integer an ASCII text denotes, in base ten: white space, a
    sign, the digits, white space, and nothing else. *)
Definition parse (l : list N) : option Z :=
  let (negative, l) := signed (lstrip l) in
  match scan 0 0 false l with
  | Some (n, count, rest) =>
      if (max_str_digits <? count)%Z then None
      else match lstrip rest with
           | [] => Some (if negative then (- n)%Z else n)
           | _ :: _ => None
           end
  | None => None
  end.

Definition int_literal (s : string) : option Z :=
  match code_points s with
  | Some cs => parse (map to_ascii cs)
  | None => None
  end.

(** [int(s)] raises [ValueError] on anything that is not an integer
    literal. *)
Definition int (s : string) : result Z :=
  match int_literal s with
  | Some z => Ok z
  | None => Raise ValueError
  end.

Definition digit_char (d : Z) : ascii :=
  ascii_of_nat (48 + Z.to_nat d).

(** The decimal digits of a natural number, most significant first.
    [fuel] bounds the number of digits. *)
Fixpoint decimal (fuel : nat) (n : Z) (acc : string) : string :=
  match fuel with
  | O => acc
  | S fuel' =>
      let acc' := String (digit_char (n mod 10)) acc in
      if (n <? 10)%Z then acc' else decimal fuel' (n / 10) acc'
  end.

Definition str_nat (n : Z) : string :=
  decimal (S (Z.to_nat (Z.log2 n))) n EmptyString.

Fixpoint zeros (k : nat) : string :=
  match k with
  | O => EmptyString
  | S k' => String "0"%char (zeros k')
  end.

(** [f"{n:02d}"]: the decimal text of [n], zero-padded after the sign
    to a total width of two. *)
Definition format_02d (n : Z) : string :=
  let sign := if (n <? 0)%Z then "-"%string else EmptyString in
  let body := str_nat (Z.abs n) in
  let pad := (2 - (String.length sign + String.length body))%nat in
  (sign ++ zeros pad ++ body)%string.

End Py.

Import Py.

Declare Scope py_scope.
Notation "x <- c ;; k" := (bind c (fun x => k))
  (at level 61, c at next level, right associativity) : py_scope.
Open Scope py_scope.
Open Scope Q_scope.

(* ================================================================== *)
(** ** The helpers of streamlit_app.py *)

(** [h, m = map(int, t_str.split(":"))]: the two targets are filled
    from the lazy [map], which is then asked for a third item; every
    failure on the way is a [ValueError]. *)
Definition hhmm_to_minutes (t_str : string) : result Z :=
  match split colon t_str with
  | a :: b :: rest =>
      h <- Py.int a ;;
      m <- Py.int b ;;
      match rest with
      | [] => Ok (h * 60 + m)%Z
      | c :: _ => _ <- Py.int c ;; Raise ValueError
      end
  | [a] => _ <- Py.int a ;; Raise ValueError
  | [] => Raise ValueError
  end.

(** [int(round(m))]: [round] already returns an [int], so [int] leaves
    it as it is.  [//] and [%] by a positive number are [Z.div] and
    [Z.modulo]. *)
Definition minutes_to_hhmm (m : Q) : string :=
  let m := Py.round m in
  let h := ((m / 60) mod 24)%Z in
  let mm := (m mod 60)%Z in
  (format_02d h ++ ":" ++ format_02d mm)%string.

(** [60.0 * distance_km / speed_kmph]: the product first, then the
    quotient, both in binary64. *)
Definition travel_time_minutes (distance_km speed_kmph : num) : result num :=
  product <- float_mul 60 distance_km ;;
  quotient <- float_truediv product speed_kmph ;;
  Ok (Float quotient).

(** The dictionary that describes a plan. *)
Record plan : Type := Plan {
  name : string;
  dep_exp : num;
  arr_exp : num;
  dep_fre : num;
  arr_fre : num;
  delay_exp : num;
  delay_fre : num;
  score : num
}.

Definition name_A : string := "Option A – Hold Freight; Express first".
Definition name_B : string := "Option B – Delay Express; Freight first".

(** [plan_A if plan_A["score"] <= plan_B["score"] else plan_B]. *)
Definition select_best (plan_A plan_B : plan) : plan :=
  if Py.le (score plan_A) (score plan_B) then plan_A else plan_B.

Definition build_schedule
    (distance_km v_exp v_freight dep_exp_planned dep_freight_planned
     headway_min w_exp w_freight : num)
  : result (plan * plan * plan * (num * num)) :=
  t_exp_run <- travel_time_minutes distance_km v_exp ;;
  t_fre_run <- travel_time_minutes distance_km v_freight ;;
  (* Option A: hold freight, express first *)
  let dep_exp_A := dep_exp_planned in
  arr_exp_A <- add dep_exp_A t_exp_run ;;
  ready_A <- add arr_exp_A headway_min ;;
  let dep_fre_A := Py.max dep_freight_planned ready_A in
  arr_fre_A <- add dep_fre_A t_fre_run ;;
  held_exp_A <- sub dep_exp_A dep_exp_planned ;;
  let delay_exp_A := Py.max (Float 0) held_exp_A in
  held_fre_A <- sub dep_fre_A dep_freight_planned ;;
  let delay_fre_A := Py.max (Float 0) held_fre_A in
  cost_exp_A <- mul w_exp delay_exp_A ;;
  cost_fre_A <- mul w_freight delay_fre_A ;;
  score_A <- add cost_exp_A cost_fre_A ;;
  let plan_A :=
    Plan name_A dep_exp_A arr_exp_A dep_fre_A arr_fre_A
         delay_exp_A delay_fre_A score_A in
  (* Option B: delay express, freight first *)
  let dep_fre_B := dep_freight_planned in
  arr_fre_B <- add dep_fre_B t_fre_run ;;
  ready_B <- add arr_fre_B headway_min ;;
  let dep_exp_B := Py.max dep_exp_planned ready_B in
  arr_exp_B <- add dep_exp_B t_exp_run ;;
  held_exp_B <- sub dep_exp_B dep_exp_planned ;;
  let delay_exp_B := Py.max (Float 0) held_exp_B in
  held_fre_B <- sub dep_fre_B dep_freight_planned ;;
  let delay_fre_B := Py.max (Float 0) held_fre_B in
  cost_exp_B <- mul w_exp delay_exp_B ;;
  cost_fre_B <- mul w_freight delay_fre_B ;;
  score_B <- add cost_exp_B cost_fre_B ;;
  let plan_B :=
    Plan name_B dep_exp_B arr_exp_B dep_fre_B arr_fre_B
         delay_exp_B delay_fre_B score_B in
  let best := select_best plan_A plan_B in
  Ok (best, plan_A, plan_B, (t_exp_run, t_fre_run)).

(** The keyword parameters [w_exp=3.0, w_freight=1.0]: an argument the
    caller leaves out takes its default. *)
Definition build_schedule_call
    (distance_km v_exp v_freight dep_exp_planned dep_freight_planned
     headway_min : num) (w_exp w_freight : option num) :=
  build_schedule distance_km v_exp v_freight
    dep_exp_planned dep_freight_planned headway_min
    (match w_exp with Some w => w | None => Float 3 end)
    (match w_freight with Some w => w | None => Float 1 end).

(* ================================================================== *)
(** ** The values of numbers *)

(** The value of a number: a rational, or one of the three special
    floats. *)
Inductive xreal : Type :=
| NaN
| NegInf
| PosInf
| Real (q : Q).

Definition value (x : num) : xreal :=
  match x with
  | Int z => Real (inject_Z z)
  | Float f =>
      match Prim2SF f with
      | S754_nan => NaN
      | S754_infinity s => if s then NegInf else PosInf
      | S754_zero _ => Real 0
      | S754_finite s m e =>
          Real (Qmake ((if s then Z.neg m else Z.pos m) * 2 ^ (e + 1074))
                      (2 ^ 1074))
      end
  end.

(** The order of the values; nothing compares with [NaN]. *)
Definition xcompare (u v : xreal) : option comparison :=
  match u, v with
  | NaN, _ | _, NaN => None
  | Real p, Real q => Some (Qcompare p q)
  | NegInf, NegInf | PosInf, PosInf => Some Eq
  | NegInf, _ | _, PosInf => Some Lt
  | _, NegInf | PosInf, _ => Some Gt
  end.

(** The number [x] is worth exactly [q]. *)
Definition worth (x : num) (q : Q) : Prop :=
  xcompare (value x) (Real q) = Some Eq.

(** A number as it is quoted to two decimal places, in hundredths. *)
Definition hundredths (x : num) : option Z :=
  match value x with
  | Real q => Some (Py.round (100 * q))
  | _ => None
  end.

Definition is_float (x : num) : Prop :=
  match x with Float _ => True | Int _ => False end.

Definition nonzero (x : num) : Prop := is_zero x = false.

(** Whether a character occurs in a text. *)
Fixpoint has_char (c : ascii) (s : string) : bool :=
  match s with
  | EmptyString => false
  | String x s' => Ascii.eqb x c || has_char c s'
  end.

(* ================================================================== *)
(** ** The specification's vocabulary *)

Module Spec.

(** *** Numbers *)

Definition lt (u v : xreal) : Prop := xcompare u v = Some Lt.
Definition le (u v : xreal) : Prop :=
  xcompare u v = Some Lt \/ xcompare u v = Some Eq.

(** A number that is not a NaN, so that it compares with the others. *)
Definition ordered (x : num) : Prop := value x <> NaN.

Definition zero (x : num) : Prop := xcompare (value x) (Real 0) = Some Eq.

(** An int fits when it converts to a float; a float always does. *)
Definition fits (x : num) : Prop :=
  match x with
  | Int z => (Z.abs z < 2 ^ 1024 - 2 ^ 970)%Z
  | Float _ => True
  end.

(** The float a number stands for in mixed arithmetic. *)
Definition as_float (x : num) : float :=
  match x with
  | Int z => SF2Prim (binary_normalize prec emax z 0 false)
  | Float f => f
  end.

(** Python's [+], [-] and [*]: exact on two ints, binary64 as soon as
    one operand is a float. *)
Definition plus (a b : num) : num :=
  match a, b with
  | Int x, Int y => Int (x + y)
  | _, _ => Float (as_float a + as_float b)
  end.

Definition minus (a b : num) : num :=
  match a, b with
  | Int x, Int y => Int (x - y)
  | _, _ => Float (as_float a - as_float b)
  end.

Definition times (a b : num) : num :=
  match a, b with
  | Int x, Int y => Int (x * y)
  | _, _ => Float (as_float a * as_float b)
  end.

(** [m] is [max(a, b)]: [b] when it is greater, else [a]. *)
Definition the_later (a b m : num) : Prop :=
  (lt (value a) (value b) /\ m = b) \/ (~ lt (value a) (value b) /\ m = a).

(** Section 4.2: [60 * distance / speed], in binary64. *)
Definition travelTime (distanceKm speedKmph : num) : num :=
  Float (60 * as_float distanceKm / as_float speedKmph).

(** [d] is the delay [max(0, actual - planned)]. *)
Definition delay (actual planned d : num) : Prop :=
  the_later (Float 0) (minus actual planned) d.

(** Plan A, express first, step by step. *)
Definition planA (plannedExp plannedFre headway wExp wFre tExp tFre : num)
    (p : plan) : Prop :=
  dep_exp p = plannedExp /\
  delay_exp p = Float 0 /\
  arr_exp p = plus (dep_exp p) tExp /\
  the_later plannedFre (plus (arr_exp p) headway) (dep_fre p) /\
  arr_fre p = plus (dep_fre p) tFre /\
  delay (dep_exp p) plannedExp (delay_exp p) /\
  delay (dep_fre p) plannedFre (delay_fre p) /\
  score p = plus (times wExp (delay_exp p)) (times wFre (delay_fre p)).

(** Plan B, freight first: the same with the roles swapped. *)
Definition planB (plannedExp plannedFre headway wExp wFre tExp tFre : num)
    (p : plan) : Prop :=
  dep_fre p = plannedFre /\
  delay_fre p = Float 0 /\
  arr_fre p = plus (dep_fre p) tFre /\
  the_later plannedExp (plus (arr_fre p) headway) (dep_exp p) /\
  arr_exp p = plus (dep_exp p) tExp /\
  delay (dep_exp p) plannedExp (delay_exp p) /\
  delay (dep_fre p) plannedFre (delay_fre p) /\
  score p = plus (times wExp (delay_exp p)) (times wFre (delay_fre p)).

(** *** Text *)

Definition byte (n : N) : ascii := ascii_of_N n.

(** The UTF-8 bytes of a character. *)
Definition utf8 (c : N) : string :=
  if (c <? 128)%N then String (byte c) EmptyString
  else if (c <? 2048)%N then
    String (byte (192 + c / 64))
      (String (byte (128 + c mod 64)) EmptyString)
  else if (c <? 65536)%N then
    String (byte (224 + c / 4096))
      (String (byte (128 + (c / 64) mod 64))
         (String (byte (128 + c mod 64)) EmptyString))
  else
    String (byte (240 + c / 262144))
      (String (byte (128 + (c / 4096) mod 64))
         (String (byte (128 + (c / 64) mod 64))
            (String (byte (128 + c mod 64)) EmptyString))).

(** The text made of the given characters. *)
Fixpoint text_of (cs : list N) : string :=
  match cs with
  | [] => EmptyString
  | c :: cs' => (utf8 c ++ text_of cs')%string
  end.

(** The blanks that may surround an integer: TAB, LF, VT, FF, CR, the
    space, and the blanks beyond ASCII. *)
Definition blanks : list N :=
  [
   0x9; 0xA; 0xB; 0xC; 0xD; 0x20; 0x85; 0xA0; 0x1680; 0x2000; 0x2001;
   0x2002; 0x2003; 0x2004; 0x2005; 0x2006; 0x2007; 0x2008; 0x2009;
   0x200A; 0x2028; 0x2029; 0x202F; 0x205F; 0x3000
  ]%N.

Definition blank (c : N) : Prop := In c blanks.

(** The digit zero of every script that has decimal digits. *)
Definition zero_digits : list N :=
  [
   0x30; 0x660; 0x6F0; 0x7C0; 0x966; 0x9E6; 0xA66; 0xAE6; 0xB66;
   0xBE6; 0xC66; 0xCE6; 0xD66; 0xDE6; 0xE50; 0xED0; 0xF20; 0x1040;
   0x1090; 0x17E0; 0x1810; 0x1946; 0x19D0; 0x1A80; 0x1A90; 0x1B50;
   0x1BB0; 0x1C40; 0x1C50; 0xA620; 0xA8D0; 0xA900; 0xA9D0; 0xA9F0;
   0xAA50; 0xABF0; 0xFF10; 0x104A0; 0x10D30; 0x11066; 0x110F0;
   0x11136; 0x111D0; 0x112F0; 0x11450; 0x114D0; 0x11650; 0x116C0;
   0x11730; 0x118E0; 0x11950; 0x11C50; 0x11D50; 0x11DA0; 0x16A60;
   0x16AC0; 0x16B50; 0x1D7CE; 0x1D7D8; 0x1D7E2; 0x1D7EC; 0x1D7F6;
   0x1E140; 0x1E2F0; 0x1E950; 0x1FBF0
  ]%N.

(** [c] is the decimal digit [d] of some script. *)
Definition decimal_digit (c : N) (d : Z) : Prop :=
  exists z, In z zero_digits /\ (z <= c < z + 10)%N /\ d = Z.of_N (c - z).

Definition underscore : N := 95.

(** Digits, with single underscores allowed between two of them, and
    the values of the digits in order. *)
Inductive numeral : list N -> list Z -> Prop :=
| numeral_one c d : decimal_digit c d -> numeral [c] [d]
| numeral_more c d cs ds :
    decimal_digit c d -> numeral cs ds -> numeral (c :: cs) (d :: ds)
| numeral_sep c d cs ds :
    decimal_digit c d -> numeral cs ds ->
    numeral (c :: underscore :: cs) (d :: ds).

(** The number that digits write in base ten. *)
Definition number (ds : list Z) : Z :=
  fold_left (fun n d => 10 * n + d)%Z ds 0%Z.

(** An integer literal: blanks, an optional sign, a numeral of at most
    4300 digits, blanks. *)
Definition integer_literal (cs : list N) (z : Z) : Prop :=
  exists lead sign body trail ds,
    cs = (lead ++ sign ++ body ++ trail)%list /\
    Forall blank lead /\ Forall blank trail /\
    numeral body ds /\ (Z.of_nat (List.length ds) <= 4300)%Z /\
    ((sign = [] \/ sign = [43%N]) /\ z = number ds \/
     sign = [45%N] /\ z = (- number ds)%Z).

(** A text that is a valid integer, and the integer it denotes. *)
Definition integer (text : string) (z : Z) : Prop :=
  exists cs, text = text_of cs /\ integer_literal cs z.

(** Section 4.1: the text is two valid integers, [h] and [m], with a
    colon between them. *)
Definition two_integers (text : string) (h m : Z) : Prop :=
  exists a b,
    text = (a ++ ":" ++ b)%string /\ integer a h /\ integer b m.

(** The ten digits. *)
Definition digit (d : Z) : string :=
  match d with
  | 0%Z => "0"
  | 1%Z => "1"
  | 2%Z => "2"
  | 3%Z => "3"
  | 4%Z => "4"
  | 5%Z => "5"
  | 6%Z => "6"
  | 7%Z => "7"
  | 8%Z => "8"
  | 9%Z => "9"
  | _ => EmptyString
  end%string.

(** A number below one hundred written with exactly two digits. *)
Definition two_digits (n : Z) : string :=
  (digit (n / 10) ++ digit (n mod 10))%string.

(** Section 4.1: the text "HH:MM" of a whole number of minutes, the
    hour wrapped modulo 24. *)
Definition clock (minutes : Z) : string :=
  (two_digits ((minutes / 60) mod 24) ++ ":" ++ two_digits (minutes mod 60))%string.

End Spec.

(** The inputs the specification calls valid: distance, speeds and
    weights above zero, headway at least zero. *)
Definition valid_input
    (distance_km v_exp v_freight headway_min w_exp w_freight : num) : Prop :=
  Spec.lt (Real 0) (value distance_km) /\
  Spec.lt (Real 0) (value v_exp) /\
  Spec.lt (Real 0) (value v_freight) /\
  Spec.le (Real 0) (value headway_min) /\
  Spec.lt (Real 0) (value w_exp) /\
  Spec.lt (Real 0) (value w_freight).

(** Every argument converts to a float when the arithmetic asks for
    it. *)
Definition convertible
    (distance_km v_exp v_freight dep_exp_planned dep_freight_planned
     headway_min w_exp w_freight : num) : Prop :=
  Spec.fits distance_km /\ Spec.fits v_exp /\ Spec.fits v_freight /\
  Spec.fits dep_exp_planned /\ Spec.fits dep_freight_planned /\
  Spec.fits headway_min /\ Spec.fits w_exp /\ Spec.fits w_freight.

(** The two plans as [build_schedule] builds them when no conversion
    fails. *)
Definition plan_A_of (pe pf h we wf te tf : num) : plan :=
  let arr_exp_A := Spec.plus pe te in
  let dep_fre_A := Py.max pf (Spec.plus arr_exp_A h) in
  let delay_exp_A := Py.max (Float 0) (Spec.minus pe pe) in
  let delay_fre_A := Py.max (Float 0) (Spec.minus dep_fre_A pf) in
  Plan name_A pe arr_exp_A dep_fre_A (Spec.plus dep_fre_A tf)
       delay_exp_A delay_fre_A
       (Spec.plus (Spec.times we delay_exp_A) (Spec.times wf delay_fre_A)).

Definition plan_B_of (pe pf h we wf te tf : num) : plan :=
  let arr_fre_B := Spec.plus pf tf in
  let dep_exp_B := Py.max pe (Spec.plus arr_fre_B h) in
  let delay_exp_B := Py.max (Float 0) (Spec.minus dep_exp_B pe) in
  let delay_fre_B := Py.max (Float 0) (Spec.minus pf pf) in
  Plan name_B dep_exp_B (Spec.plus dep_exp_B te) pf arr_fre_B
       delay_exp_B delay_fre_B
       (Spec.plus (Spec.times we delay_exp_B) (Spec.times wf delay_fre_B)).

(** The input of Scenario 1, each number given as an int or as a
    float. *)
Definition scenario_1_input (d ve vf pe pf h we wf : num) : Prop :=
  (d = Int 40 \/ d = Float 40) /\
  (ve = Int 110 \/ ve = Float 110) /\
  (vf = Int 40 \/ vf = Float 40) /\
  (pe = Int 622 \/ pe = Float 622) /\
  (pf = Int 600 \/ pf = Float 600) /\
  (h = Int 3 \/ h = Float 3) /\
  (we = Int 3 \/ we = Float 3) /\
  (wf = Int 1 \/ wf = Float 1).

(** One more digit read. *)
Definition step (n d : Z) : Z := (10 * n + d)%Z.

(** What may follow the digits: the end, or a character that is
    neither a digit nor an underscore. *)
Definition stops (trail : list N) : Prop :=
  match trail with
  | [] => True
  | c :: _ => digit_val (to_ascii c) = None /\ to_ascii c <> 95%N
  end.

(** A character of an integer literal: it has an encoding, and it is
    not the colon. *)
Definition plain (c : N) : Prop := (c < 1114112)%N /\ c <> 58%N.

(* ================================================================== *)
(** ** The order of numbers *)

Lemma compare_scale (a b k : Z) :
  (0 < k)%Z -> (a * k ?= b * k)%Z = (a ?= b)%Z.
Proof.
  intros Hk. destruct (Z.compare_spec a b) as [-> | H | H].
  - apply Z.compare_refl.
  - apply Z.compare_lt_iff. nia.
  - apply Z.compare_gt_iff. nia.
Qed.

Lemma scale_lt (a b k r : Z) :
  (a < b * r)%Z -> (0 < k)%Z -> (a * k < b * (k * r))%Z.
Proof.
  intros H Hk. replace (b * (k * r))%Z with ((b * r) * k)%Z by ring.
  apply Z.mul_lt_mono_pos_r; assumption.
Qed.

Lemma digits2_pos_bounds (m : positive) :
  (2 ^ (Z.pos (digits2_pos m) - 1) <= Z.pos m < 2 ^ Z.pos (digits2_pos m))%Z.
Proof.
  induction m as [ m IH | m IH | ]; cbn [digits2_pos].
  - rewrite Pos2Z.inj_succ.
    replace (Z.succ (Z.pos (digits2_pos m)) - 1)%Z with (Z.succ (Z.pos (digits2_pos m) - 1))%Z by lia.
    rewrite !Z.pow_succ_r by lia. lia.
  - rewrite Pos2Z.inj_succ.
    replace (Z.succ (Z.pos (digits2_pos m)) - 1)%Z with (Z.succ (Z.pos (digits2_pos m) - 1))%Z by lia.
    rewrite !Z.pow_succ_r by lia. lia.
  - cbn. lia.
Qed.

(** What validity says of a finite float: at most 53 digits, exactly
    53 above the least exponent. *)
Lemma bounded_inv (m : positive) (e : Z) :
  bounded prec emax m e = true ->
  (-1074 <= e <= 971)%Z /\
  (Z.pos (digits2_pos m) <= 53)%Z /\
  (-1074 < e -> Z.pos (digits2_pos m) = 53)%Z.
Proof.
  unfold bounded, canonical_mantissa, fexp, SpecFloat.emin, prec, emax.
  intros H. apply andb_true_iff in H as [H1 H2].
  apply Z.eqb_eq in H1. apply Z.leb_le in H2. lia.
Qed.

Lemma finite_compare (m1 m2 : positive) (e1 e2 : Z) :
  bounded prec emax m1 e1 = true -> bounded prec emax m2 e2 = true ->
  match (e1 ?= e2)%Z with
  | Lt => Lt
  | Gt => Gt
  | Eq => Pos.compare_cont Eq m1 m2
  end = (Z.pos m1 * 2 ^ (e1 + 1074) ?= Z.pos m2 * 2 ^ (e2 + 1074))%Z.
Proof.
  intros B1 B2.
  destruct (bounded_inv m1 e1 B1) as (E1 & D1 & N1).
  destruct (bounded_inv m2 e2 B2) as (E2 & D2 & N2).
  pose proof (digits2_pos_bounds m1) as [L1 U1].
  pose proof (digits2_pos_bounds m2) as [L2 U2].
  destruct (Z.compare_spec e1 e2) as [-> | H | H]; symmetry.
  - rewrite compare_scale by (apply Z.pow_pos_nonneg; lia).
    reflexivity.
  - apply Z.compare_lt_iff.
    rewrite (N2 ltac:(lia)) in L2.
    assert (Hm1 : (Z.pos m1 < 2 ^ 53)%Z).
    { eapply Z.lt_le_trans; [ exact U1 | apply Z.pow_le_mono_r; lia ]. }
    replace (e2 + 1074)%Z with ((e1 + 1074) + (e2 - e1))%Z by lia.
    rewrite (Z.pow_add_r 2 (e1 + 1074) (e2 - e1)) by lia.
    assert (P : (0 < 2 ^ (e1 + 1074))%Z) by (apply Z.pow_pos_nonneg; lia).
    assert (Q : (2 <= 2 ^ (e2 - e1))%Z).
    { change 2%Z with (2 ^ 1)%Z at 1. apply Z.pow_le_mono_r; lia. }
    change (2 ^ (53 - 1))%Z with 4503599627370496%Z in L2.
    change (2 ^ 53)%Z with 9007199254740992%Z in Hm1.
    apply scale_lt; [ | exact P ].
    eapply Z.lt_le_trans; [ | apply Z.mul_le_mono_nonneg_l; [ lia | exact Q ] ].
    lia.
  - apply Z.compare_gt_iff.
    rewrite (N1 ltac:(lia)) in L1.
    assert (Hm2 : (Z.pos m2 < 2 ^ 53)%Z).
    { eapply Z.lt_le_trans; [ exact U2 | apply Z.pow_le_mono_r; lia ]. }
    replace (e1 + 1074)%Z with ((e2 + 1074) + (e1 - e2))%Z by lia.
    rewrite (Z.pow_add_r 2 (e2 + 1074) (e1 - e2)) by lia.
    assert (P : (0 < 2 ^ (e2 + 1074))%Z) by (apply Z.pow_pos_nonneg; lia).
    assert (Q : (2 <= 2 ^ (e1 - e2))%Z).
    { change 2%Z with (2 ^ 1)%Z at 1. apply Z.pow_le_mono_r; lia. }
    change (2 ^ (53 - 1))%Z with 4503599627370496%Z in L1.
    change (2 ^ 53)%Z with 9007199254740992%Z in Hm2.
    apply scale_lt; [ | exact P ].
    eapply Z.lt_le_trans; [ | apply Z.mul_le_mono_nonneg_l; [ lia | exact Q ] ].
    lia.
Qed.

Lemma scaled_neg (m : positive) (k : Z) :
  (Z.neg m * k = - (Z.pos m * k))%Z.
Proof. rewrite <- Pos2Z.opp_pos. ring. Qed.

(** The comparison of two valid floats is the comparison of their
    values. *)
Lemma SFcompare_value (x y : spec_float) :
  valid_binary x = true -> valid_binary y = true ->
  SFcompare x y =
  match x, y with
  | S754_nan, _ | _, S754_nan => None
  | S754_infinity s1, S754_infinity s2 =>
      Some (if s1 then if s2 then Eq else Lt else if s2 then Gt else Eq)
  | S754_infinity s, _ => Some (if s then Lt else Gt)
  | _, S754_infinity s => Some (if s then Gt else Lt)
  | S754_zero _, S754_zero _ => Some Eq
  | S754_zero _, S754_finite s m e => Some (0 ?= scaled s m e)%Z
  | S754_finite s m e, S754_zero _ => Some (scaled s m e ?= 0)%Z
  | S754_finite s1 m1 e1, S754_finite s2 m2 e2 =>
      Some (scaled s1 m1 e1 ?= scaled s2 m2 e2)%Z
  end.
Proof.
  intros Vx Vy.
  destruct x as [ sx | sx | | sx mx ex ]; destruct y as [ sy | sy | | sy my ey ];
    cbn [SFcompare]; try reflexivity; try (destruct sx, sy; reflexivity).
  - cbn [valid_binary] in Vy. destruct (bounded_inv my ey Vy) as (E & _).
    assert (P : (0 < 2 ^ (ey + 1074))%Z) by (apply Z.pow_pos_nonneg; lia).
    unfold scaled. destruct sy; f_equal; symmetry.
    + apply Z.compare_gt_iff. rewrite scaled_neg. nia.
    + apply Z.compare_lt_iff. nia.
  - cbn [valid_binary] in Vx. destruct (bounded_inv mx ex Vx) as (E & _).
    assert (P : (0 < 2 ^ (ex + 1074))%Z) by (apply Z.pow_pos_nonneg; lia).
    unfold scaled. destruct sx; f_equal; symmetry.
    + apply Z.compare_lt_iff. rewrite scaled_neg. nia.
    + apply Z.compare_gt_iff. nia.
  - cbn [valid_binary] in Vx, Vy.
    destruct (bounded_inv mx ex Vx) as (Ex & _).
    destruct (bounded_inv my ey Vy) as (Ey & _).
    assert (Px : (0 < 2 ^ (ex + 1074))%Z) by (apply Z.pow_pos_nonneg; lia).
    assert (Py : (0 < 2 ^ (ey + 1074))%Z) by (apply Z.pow_pos_nonneg; lia).
    unfold scaled. destruct sx, sy; f_equal.
    + rewrite !scaled_neg, Z.compare_opp.
      rewrite <- (finite_compare my mx ey ex Vy Vx).
      rewrite (Z.compare_antisym ey ex).
      destruct (ey ?= ex)%Z; cbn [CompOpp]; try reflexivity.
      apply (Pos.compare_cont_antisym mx my Eq).
    + symmetry. apply Z.compare_lt_iff. rewrite scaled_neg. nia.
    + symmetry. apply Z.compare_gt_iff. rewrite scaled_neg. nia.
    + apply finite_compare; assumption.
Qed.

Lemma den_pos : Z.pos (2 ^ 1074) = (2 ^ 1074)%Z.
Proof. apply Pos2Z.inj_pow. Qed.

Lemma pow_den_pos : (0 < 2 ^ 1074)%Z.
Proof. apply Z.pow_pos_nonneg; lia. Qed.

Lemma Qcompare_same_den (a b : Z) (d : positive) :
  Qcompare (a # d) (b # d) = (a ?= b)%Z.
Proof. unfold Qcompare. cbn [Qnum Qden]. apply compare_scale. lia. Qed.

Lemma Qcompare_zero_l (b : Z) (d : positive) : Qcompare 0 (b # d) = (0 ?= b)%Z.
Proof.
  unfold Qcompare. cbn [Qnum Qden]. rewrite Z.mul_1_r. reflexivity.
Qed.

Lemma Qcompare_zero_r (a : Z) (d : positive) : Qcompare (a # d) 0 = (a ?= 0)%Z.
Proof.
  unfold Qcompare. cbn [Qnum Qden]. rewrite Z.mul_1_r. reflexivity.
Qed.

Lemma compare_int_float_value (x : Z) (g : float) :
  compare_int_float x g = xcompare (Real (inject_Z x)) (value (Float g)).
Proof.
  unfold compare_int_float, value. destruct (Prim2SF g) as [ s | s | | s m e ].
  - cbn [xcompare]. f_equal. unfold Qcompare, inject_Z. cbn [Qnum Qden].
    rewrite Z.mul_1_r. reflexivity.
  - destruct s; reflexivity.
  - reflexivity.
  - cbn [xcompare]. f_equal. unfold Qcompare, inject_Z, scaled. cbn [Qnum Qden].
    rewrite den_pos, Z.mul_1_r. reflexivity.
Qed.

Lemma xcompare_antisym (u v : xreal) :
  xcompare v u = option_map CompOpp (xcompare u v).
Proof.
  destruct u as [ | | | p ], v as [ | | | q ]; cbn; try reflexivity.
  f_equal. symmetry. apply Qcompare_antisym.
Qed.

Lemma float_compare_value (f g : float) :
  match (f ?= g)%float with
  | FEq => Some Eq
  | FLt => Some Lt
  | FGt => Some Gt
  | FNotComparable => None
  end = xcompare (value (Float f)) (value (Float g)).
Proof.
  rewrite FloatAxioms.compare_spec. unfold value.
  rewrite (SFcompare_value _ _ (Prim2SF_valid f) (Prim2SF_valid g)).
  destruct (Prim2SF f) as [ sx | sx | | sx mx ex ];
    destruct (Prim2SF g) as [ sy | sy | | sy my ey ];
    cbn [flatten_cmp_opt xcompare]; try reflexivity;
    try (destruct sx; reflexivity); try (destruct sy; reflexivity).
  - rewrite Qcompare_zero_l. unfold scaled. destruct (_ ?= _)%Z; reflexivity.
  - destruct sx, sy; reflexivity.
  - rewrite Qcompare_zero_r. unfold scaled. destruct (_ ?= _)%Z; reflexivity.
  - rewrite Qcompare_same_den. unfold scaled. destruct (_ ?= _)%Z; reflexivity.
Qed.

(** The comparisons of the model compare the values. *)
Lemma compare_value (a b : num) :
  Py.compare a b = xcompare (value a) (value b).
Proof.
  destruct a as [ x | f ], b as [ y | g ]; cbn [Py.compare].
  - cbn [value xcompare]. f_equal. unfold Qcompare, inject_Z. cbn [Qnum Qden].
    rewrite !Z.mul_1_r. reflexivity.
  - apply compare_int_float_value.
  - rewrite compare_int_float_value. symmetry. apply xcompare_antisym.
  - apply float_compare_value.
Qed.

(* ================================================================== *)
(** ** Arithmetic that converts *)

Lemma fits_dec (x : num) : {Spec.fits x} + {~ Spec.fits x}.
Proof.
  destruct x as [ z | f ]; cbn [Spec.fits]; [ | left; exact I ].
  destruct (Z_lt_dec (Z.abs z) (2 ^ 1024 - 2 ^ 970)); [ left | right ]; assumption.
Qed.

Lemma to_float_fits (x : num) : Spec.fits x -> to_float x = Ok (Spec.as_float x).
Proof.
  destruct x as [ z | f ]; cbn [Spec.fits to_float Spec.as_float]; [ | reflexivity ].
  intros H. unfold float_limit.
  destruct (Z.leb_spec (2 ^ 1024 - 2 ^ 970) (Z.abs z)); [ lia | reflexivity ].
Qed.

Lemma to_float_unfit (x : num) : ~ Spec.fits x -> to_float x = Raise OverflowError.
Proof.
  destruct x as [ z | f ]; cbn [Spec.fits to_float]; [ | intros H; exfalso; exact (H I) ].
  intros H. unfold float_limit.
  destruct (Z.leb_spec (2 ^ 1024 - 2 ^ 970) (Z.abs z)); [ reflexivity | lia ].
Qed.

Lemma is_float_fits (x : num) : is_float x -> Spec.fits x.
Proof. destruct x; cbn; [ intros [] | trivial ]. Qed.

Lemma arith_fits on_int on_float (a b : num) :
  Spec.fits a -> Spec.fits b ->
  arith on_int on_float a b =
  Ok match a, b with
     | Int x, Int y => Int (on_int x y)
     | _, _ => Float (on_float (Spec.as_float a) (Spec.as_float b))
     end.
Proof.
  intros Ha Hb. unfold arith.
  destruct a as [ x | f ], b as [ y | g ]; try reflexivity;
    rewrite ?(to_float_fits _ Ha), ?(to_float_fits _ Hb); reflexivity.
Qed.

Lemma add_fits (a b : num) :
  Spec.fits a -> Spec.fits b -> add a b = Ok (Spec.plus a b).
Proof. apply arith_fits. Qed.

Lemma sub_fits (a b : num) :
  Spec.fits a -> Spec.fits b -> sub a b = Ok (Spec.minus a b).
Proof. apply arith_fits. Qed.

Lemma mul_fits (a b : num) :
  Spec.fits a -> Spec.fits b -> mul a b = Ok (Spec.times a b).
Proof. apply arith_fits. Qed.

(** Arithmetic that needs a conversion fails when it cannot be made. *)
Lemma arith_unfit_l on_int on_float (a b : num) :
  ~ Spec.fits a -> is_float b -> arith on_int on_float a b = Raise OverflowError.
Proof.
  intros Ha Hb. destruct b as [ y | g ]; [ destruct Hb | ].
  unfold arith. destruct a as [ x | f ]; rewrite (to_float_unfit _ Ha); reflexivity.
Qed.

Lemma arith_unfit_r on_int on_float (a b : num) :
  is_float a -> ~ Spec.fits b -> arith on_int on_float a b = Raise OverflowError.
Proof.
  intros Ha Hb. destruct a as [ x | f ]; [ destruct Ha | ].
  unfold arith. cbn [to_float]. rewrite (to_float_unfit _ Hb). reflexivity.
Qed.

Lemma plus_is_float_l a b : is_float a -> is_float (Spec.plus a b).
Proof. destruct a, b; cbn; trivial. Qed.
Lemma plus_is_float_r a b : is_float b -> is_float (Spec.plus a b).
Proof. destruct a, b; cbn; trivial. Qed.
Lemma minus_is_float_l a b : is_float a -> is_float (Spec.minus a b).
Proof. destruct a, b; cbn; trivial. Qed.
Lemma minus_is_float_r a b : is_float b -> is_float (Spec.minus a b).
Proof. destruct a, b; cbn; trivial. Qed.
Lemma times_is_float_l a b : is_float a -> is_float (Spec.times a b).
Proof. destruct a, b; cbn; trivial. Qed.
Lemma times_is_float_r a b : is_float b -> is_float (Spec.times a b).
Proof. destruct a, b; cbn; trivial. Qed.
Lemma travelTime_is_float d v : is_float (Spec.travelTime d v).
Proof. exact I. Qed.

(** *** Comparisons and max *)

Lemma gt_value (a b : num) :
  Py.gt a b = true <-> Spec.lt (value b) (value a).
Proof.
  unfold Py.gt, Spec.lt. rewrite (compare_value a b), (xcompare_antisym (value b) (value a)).
  destruct (xcompare (value b) (value a)) as [ [ | | ] | ]; cbn; split; congruence.
Qed.

Lemma le_value (a b : num) :
  Py.le a b = true <-> Spec.le (value a) (value b).
Proof.
  unfold Py.le, Spec.le. rewrite (compare_value a b).
  destruct (xcompare (value a) (value b)) as [ [ | | ] | ]; cbn; split;
    try congruence; auto; intros [H | H]; congruence.
Qed.

Lemma max_the_later (a b : num) : Spec.the_later a b (Py.max a b).
Proof.
  unfold Spec.the_later, Py.max. destruct (Py.gt b a) eqn:E.
  - left. split; [ apply gt_value, E | reflexivity ].
  - right. split; [ | reflexivity ]. intros H. apply gt_value in H. congruence.
Qed.

Lemma max_cases (a b : num) : Py.max a b = a \/ Py.max a b = b.
Proof. unfold Py.max. destruct (Py.gt b a); auto. Qed.

Lemma max_fits (a b : num) : Spec.fits a -> Spec.fits b -> Spec.fits (Py.max a b).
Proof. intros Ha Hb. destruct (max_cases a b) as [-> | ->]; assumption. Qed.

Lemma max_is_float (a b : num) : is_float a -> is_float b -> is_float (Py.max a b).
Proof. intros Ha Hb. destruct (max_cases a b) as [-> | ->]; assumption. Qed.

(** *** A number minus itself *)

Lemma SFsub_diag (x : spec_float) :
  SF64sub x x = S754_nan \/ SF64sub x x = S754_zero false.
Proof.
  unfold SF64sub. destruct x as [ s | s | | s m e ]; cbn [SFsub].
  - right. destruct s; reflexivity.
  - left. destruct s; reflexivity.
  - left. reflexivity.
  - right. rewrite Z.sub_diag. reflexivity.
Qed.

Lemma value_float_zero : value (Float 0) = Real 0.
Proof. reflexivity. Qed.

Lemma value_sub_diag (f : float) :
  value (Float (f - f)) = NaN \/ value (Float (f - f)) = Real 0.
Proof.
  unfold value. rewrite sub_spec.
  destruct (SFsub_diag (Prim2SF f)) as [-> | ->]; auto.
Qed.

(** The delay of a train that leaves when planned is the float 0. *)
Lemma max_zero_minus_diag (a : num) : Py.max (Float 0) (Spec.minus a a) = Float 0.
Proof.
  unfold Py.max.
  destruct (Py.gt (Spec.minus a a) (Float 0)) eqn:E; [ | reflexivity ].
  exfalso. apply gt_value in E. unfold Spec.lt in E. rewrite value_float_zero in E.
  destruct a as [ z | f ]; cbn [Spec.minus Spec.as_float] in E.
  - rewrite Z.sub_diag in E. cbn in E. discriminate.
  - destruct (value_sub_diag f) as [H | H]; rewrite H in E; cbn in E; discriminate.
Qed.

(** The delay of the held train is a float. *)
Lemma held_delay_is_float (planned ready : num) :
  is_float ready ->
  is_float (Py.max (Float 0) (Spec.minus (Py.max planned ready) planned)).
Proof.
  intros Hr. destruct (max_cases planned ready) as [-> | ->].
  - rewrite max_zero_minus_diag. exact I.
  - apply max_is_float; [ exact I | apply minus_is_float_l, Hr ].
Qed.

(** *** The two plans *)

Lemma travel_time_minutes_fits (d v : num) :
  Spec.fits d -> Spec.fits v -> nonzero v ->
  travel_time_minutes d v = Ok (Spec.travelTime d v).
Proof.
  intros Hd Hv Nz. unfold travel_time_minutes, float_mul, float_truediv.
  rewrite (to_float_fits _ Hd). cbn [bind].
  rewrite (to_float_fits _ Hv), Nz. reflexivity.
Qed.

Create HintDb fits.
#[local] Hint Resolve is_float_fits max_fits max_is_float plus_is_float_l
  plus_is_float_r minus_is_float_l minus_is_float_r times_is_float_l
  times_is_float_r travelTime_is_float held_delay_is_float : fits.

Lemma build_schedule_fits (d ve vf pe pf h we wf : num) :
  Spec.fits d -> Spec.fits ve -> Spec.fits vf -> Spec.fits pe -> Spec.fits pf ->
  Spec.fits h -> Spec.fits we -> Spec.fits wf -> nonzero ve -> nonzero vf ->
  build_schedule d ve vf pe pf h we wf =
  let te := Spec.travelTime d ve in
  let tf := Spec.travelTime d vf in
  let A := plan_A_of pe pf h we wf te tf in
  let B := plan_B_of pe pf h we wf te tf in
  Ok (select_best A B, A, B, (te, tf)).
Proof.
  intros Fd Fve Fvf Fpe Fpf Fh Fwe Fwf Ne Nf. unfold build_schedule.
  rewrite (travel_time_minutes_fits d ve Fd Fve Ne),
          (travel_time_minutes_fits d vf Fd Fvf Nf).
  cbn [bind].
  set (te := Spec.travelTime d ve). set (tf := Spec.travelTime d vf).
  assert (Hte : is_float te) by exact I. assert (Htf : is_float tf) by exact I.
  rewrite (add_fits pe te) by auto with fits. cbn [bind].
  rewrite (add_fits (Spec.plus pe te) h) by auto with fits. cbn [bind].
  rewrite (add_fits (Py.max pf _) tf) by auto 6 with fits. cbn [bind].
  rewrite (sub_fits pe pe) by auto with fits. cbn [bind].
  rewrite (sub_fits (Py.max pf _) pf) by auto 6 with fits. cbn [bind].
  rewrite max_zero_minus_diag.
  rewrite (mul_fits we (Float 0)) by auto with fits. cbn [bind].
  rewrite (mul_fits wf (Py.max (Float 0) _)) by auto 8 with fits. cbn [bind].
  rewrite (add_fits (Spec.times we (Float 0)) _) by auto 8 with fits. cbn [bind].
  rewrite (add_fits pf tf) by auto with fits. cbn [bind].
  rewrite (add_fits (Spec.plus pf tf) h) by auto with fits. cbn [bind].
  rewrite (add_fits (Py.max pe _) te) by auto 6 with fits. cbn [bind].
  rewrite (sub_fits (Py.max pe _) pe) by auto 6 with fits. cbn [bind].
  rewrite (sub_fits pf pf) by auto with fits. cbn [bind].
  rewrite max_zero_minus_diag.
  rewrite (mul_fits we (Py.max (Float 0) _)) by auto 8 with fits. cbn [bind].
  rewrite (mul_fits wf (Float 0)) by auto with fits. cbn [bind].
  rewrite (add_fits _ (Spec.times wf (Float 0))) by auto 8 with fits. cbn [bind].
  unfold plan_A_of, plan_B_of. cbv zeta. rewrite !max_zero_minus_diag.
  reflexivity.
Qed.

(** *** When the computation returns *)

Lemma to_float_Ok_inv (x : num) (f : float) :
  to_float x = Ok f -> Spec.fits x /\ f = Spec.as_float x.
Proof.
  intros E. destruct (fits_dec x) as [F | F].
  - rewrite (to_float_fits _ F) in E. injection E as <-. auto.
  - rewrite (to_float_unfit _ F) in E. discriminate.
Qed.

Lemma to_float_Raise_inv (x : num) (e : exn) :
  to_float x = Raise e -> ~ Spec.fits x /\ e = OverflowError.
Proof.
  intros E. destruct (fits_dec x) as [F | F].
  - rewrite (to_float_fits _ F) in E. discriminate.
  - rewrite (to_float_unfit _ F) in E. injection E as <-. auto.
Qed.

Lemma arith_Raise_inv on_int on_float (a b : num) (e : exn) :
  arith on_int on_float a b = Raise e -> e = OverflowError.
Proof.
  intros E.
  assert (G : forall x y, match to_float x with
                          | Raise e1 => Raise e1
                          | Ok fa => match to_float y with
                                     | Raise e2 => Raise e2
                                     | Ok fb => Ok (Float (on_float fa fb))
                                     end
                          end = Raise e -> e = OverflowError).
  { intros x y. destruct (to_float x) eqn:Ex.
    - destruct (to_float y) eqn:Ey; [ discriminate | ].
      intros X. injection X as <-. apply (to_float_Raise_inv _ _ Ey).
    - intros X. injection X as <-. apply (to_float_Raise_inv _ _ Ex). }
  destruct a as [ x | f ], b as [ y | g ]; [ discriminate | | | ].
  - apply (G (Int x) (Float g) E).
  - apply (G (Float f) (Int y) E).
  - apply (G (Float f) (Float g) E).
Qed.

Lemma arith_Ok_inv on_int on_float (a b c : num) :
  is_float a \/ is_float b -> arith on_int on_float a b = Ok c ->
  Spec.fits a /\ Spec.fits b.
Proof.
  intros H E.
  destruct (fits_dec a) as [Fa | Fa]; [ destruct (fits_dec b) as [Fb | Fb] | ].
  - auto.
  - exfalso. destruct H as [H | H].
    + rewrite (arith_unfit_r _ _ _ _ H Fb) in E. discriminate.
    + apply Fb, is_float_fits, H.
  - exfalso. destruct H as [H | H].
    + apply Fa, is_float_fits, H.
    + rewrite (arith_unfit_l _ _ _ _ Fa H) in E. discriminate.
Qed.

Lemma travel_time_minutes_Ok_inv (d v t : num) :
  travel_time_minutes d v = Ok t ->
  Spec.fits d /\ Spec.fits v /\ nonzero v.
Proof.
  unfold travel_time_minutes, float_mul, float_truediv, nonzero.
  destruct (to_float d) as [ fd | e ] eqn:Ed; cbn [bind]; [ | discriminate ].
  destruct (to_float v) as [ fv | e ] eqn:Ev; cbn [bind]; [ | discriminate ].
  destruct (is_zero v); cbn [bind]; [ discriminate | ]. intros _.
  repeat split; [ apply (to_float_Ok_inv _ _ Ed) | apply (to_float_Ok_inv _ _ Ev) ].
Qed.

Lemma travel_time_minutes_Raise_inv (d v : num) (e : exn) :
  travel_time_minutes d v = Raise e ->
  (e = OverflowError /\ (~ Spec.fits d \/ ~ Spec.fits v)) \/
  (e = ZeroDivisionError /\ Spec.fits d /\ Spec.fits v /\ is_zero v = true).
Proof.
  unfold travel_time_minutes, float_mul, float_truediv.
  destruct (to_float d) as [ fd | e1 ] eqn:Ed; cbn [bind].
  - destruct (to_float v) as [ fv | e2 ] eqn:Ev; cbn [bind].
    + destruct (is_zero v) eqn:Z; cbn [bind]; [ | discriminate ].
      intros X. injection X as <-. right.
      repeat split; [ apply (to_float_Ok_inv _ _ Ed) | apply (to_float_Ok_inv _ _ Ev) ].
    + intros X. injection X as <-. left.
      destruct (to_float_Raise_inv _ _ Ev) as [F ->]. auto.
  - intros X. injection X as <-. left.
    destruct (to_float_Raise_inv _ _ Ed) as [F ->]. auto.
Qed.

(** [build_schedule] returns only when every argument fits and no
    speed is zero. *)
Lemma build_schedule_Ok_inv (d ve vf pe pf h we wf : num) r :
  build_schedule d ve vf pe pf h we wf = Ok r ->
  (Spec.fits d /\ Spec.fits ve /\ Spec.fits vf /\ Spec.fits pe /\ Spec.fits pf /\
   Spec.fits h /\ Spec.fits we /\ Spec.fits wf) /\ nonzero ve /\ nonzero vf.
Proof.
  intros E. unfold build_schedule in E.
  destruct (travel_time_minutes d ve) as [ te | ] eqn:T1; [ | discriminate ].
  destruct (travel_time_minutes_Ok_inv _ _ _ T1) as (Fd & Fve & Ne).
  rewrite (travel_time_minutes_fits d ve Fd Fve Ne) in T1. injection T1 as <-.
  cbn [bind] in E.
  destruct (travel_time_minutes d vf) as [ tf | ] eqn:T2; [ | discriminate ].
  destruct (travel_time_minutes_Ok_inv _ _ _ T2) as (_ & Fvf & Nf).
  rewrite (travel_time_minutes_fits d vf Fd Fvf Nf) in T2. injection T2 as <-.
  cbn [bind] in E.
  set (te := Spec.travelTime d ve) in *. set (tf := Spec.travelTime d vf) in *.
  assert (Hte : is_float te) by exact I. assert (Htf : is_float tf) by exact I.
  destruct (add pe te) as [ arr | ] eqn:A1; [ | discriminate ].
  destruct (arith_Ok_inv _ _ _ _ _ (or_intror Hte) A1) as [Fpe _].
  rewrite (add_fits pe te) in A1 by auto with fits. injection A1 as <-.
  cbn [bind] in E.
  destruct (add (Spec.plus pe te) h) as [ ready | ] eqn:A2; [ | discriminate ].
  destruct (arith_Ok_inv _ _ _ _ _ (or_introl (plus_is_float_r pe te Hte)) A2) as [_ Fh].
  rewrite (add_fits (Spec.plus pe te) h) in A2 by auto with fits. injection A2 as <-.
  cbn [bind] in E.
  set (ready := Spec.plus (Spec.plus pe te) h) in *.
  assert (Hready : is_float ready) by (apply plus_is_float_l, plus_is_float_r, Hte).
  destruct (add (Py.max pf ready) tf) as [ arrf | ] eqn:A3; [ | discriminate ].
  destruct (arith_Ok_inv _ _ _ _ _ (or_intror Htf) A3) as [Fmax _].
  cbn [bind] in E.
  rewrite (sub_fits pe pe) in E by auto. cbn [bind] in E.
  destruct (sub (Py.max pf ready) pf) as [ held | ] eqn:S2; [ | discriminate ].
  assert (Fpf : Spec.fits pf).
  { destruct (max_cases pf ready) as [M | M]; rewrite M in *.
    - exact Fmax.
    - apply (arith_Ok_inv _ _ _ _ _ (or_introl Hready) S2). }
  rewrite (sub_fits (Py.max pf ready) pf) in S2 by auto with fits. injection S2 as <-.
  cbn [bind] in E. rewrite max_zero_minus_diag in E.
  destruct (mul we (Float 0)) as [ ce | ] eqn:M1; [ | discriminate ].
  destruct (arith_Ok_inv _ _ we (Float 0) _ (or_intror I) M1) as [Fwe _].
  cbn [bind] in E.
  destruct (mul wf (Py.max (Float 0) (Spec.minus (Py.max pf ready) pf)))
    as [ cf | ] eqn:M2; [ | discriminate ].
  destruct (arith_Ok_inv _ _ _ _ _
              (or_intror (held_delay_is_float pf ready Hready)) M2) as [Fwf _].
  repeat split; assumption.
Qed.

(** *** Zero and the order *)

Lemma xcompare_irrefl (u : xreal) : xcompare u u <> Some Lt.
Proof.
  destruct u as [ | | | q ]; cbn; try discriminate.
  intros H. injection H as H. rewrite (proj1 (Qeq_alt q q) (Qeq_refl q)) in H.
  discriminate.
Qed.

Lemma lt_irrefl (u : xreal) : ~ Spec.lt u u.
Proof. exact (xcompare_irrefl u). Qed.

Lemma lt_asym (u v : xreal) : Spec.lt u v -> ~ Spec.lt v u.
Proof.
  unfold Spec.lt. intros H. rewrite (xcompare_antisym u v), H. discriminate.
Qed.

Lemma le_refl (x : num) : Spec.ordered x -> Spec.le (value x) (value x).
Proof.
  unfold Spec.ordered, Spec.le. destruct (value x) as [ | | | q ]; cbn; intros H; auto.
  - destruct H. reflexivity.
  - right. f_equal. apply Qeq_alt, Qeq_refl.
Qed.

Lemma not_lt_le (x y : num) :
  Spec.ordered x -> Spec.ordered y ->
  ~ Spec.lt (value x) (value y) -> Spec.le (value y) (value x).
Proof.
  unfold Spec.ordered, Spec.lt, Spec.le. rewrite (xcompare_antisym (value x) (value y)).
  destruct (value x) as [ | | | p ], (value y) as [ | | | q ]; cbn;
    intros Hx Hy H; try congruence; auto.
  destruct (Qcompare p q); cbn; auto. destruct H. reflexivity.
Qed.

Lemma is_zero_value (x : num) : is_zero x = true <-> Spec.zero x.
Proof.
  unfold Spec.zero. destruct x as [ z | f ]; cbn [is_zero].
  - cbn [value xcompare]. unfold Qcompare, inject_Z. cbn [Qnum Qden].
    rewrite Z.mul_1_r. change (0 * 1)%Z with 0%Z. rewrite Z.eqb_eq.
    split; [ intros ->; reflexivity | intros H; injection H as H; apply Z.compare_eq, H ].
  - change (Real 0) with (value (Float 0)). rewrite <- float_compare_value.
    rewrite FloatAxioms.eqb_spec, FloatAxioms.compare_spec. unfold SFeqb.
    destruct (SFcompare (Prim2SF f) (Prim2SF 0)) as [ [ | | ] | ]; cbn;
      split; congruence.
Qed.

Lemma positive_nonzero (x : num) : Spec.lt (Real 0) (value x) -> nonzero x.
Proof.
  intros H. unfold nonzero. destruct (is_zero x) eqn:E; [ | reflexivity ].
  exfalso. apply is_zero_value in E. unfold Spec.zero in E. unfold Spec.lt in H.
  rewrite (xcompare_antisym (value x) (Real 0)), E in H. discriminate.
Qed.

Lemma nonzero_not_zero (x : num) : nonzero x <-> ~ Spec.zero x.
Proof.
  unfold nonzero. rewrite <- is_zero_value. destruct (is_zero x); split; congruence.
Qed.

(** *** What max guarantees *)

Lemma max_not_lt_l (a b : num) : ~ Spec.lt (value (Py.max a b)) (value a).
Proof.
  destruct (max_the_later a b) as [[L ->] | [L ->]].
  - apply lt_asym, L.
  - apply lt_irrefl.
Qed.

Lemma max_not_lt_r (a b : num) : ~ Spec.lt (value (Py.max a b)) (value b).
Proof.
  destruct (max_the_later a b) as [[L ->] | [L ->]].
  - apply lt_irrefl.
  - exact L.
Qed.

Lemma max_le_both (a b : num) :
  Spec.ordered a -> Spec.ordered b ->
  Spec.le (value a) (value (Py.max a b)) /\ Spec.le (value b) (value (Py.max a b)).
Proof.
  intros Ha Hb. destruct (max_the_later a b) as [[L ->] | [L ->]].
  - split; [ left; exact L | apply le_refl, Hb ].
  - split; [ apply le_refl, Ha | apply not_lt_le; assumption ].
Qed.

Lemma max_zero_nonneg (x : num) : Spec.le (Real 0) (value (Py.max (Float 0) x)).
Proof.
  destruct (max_the_later (Float 0) x) as [[L ->] | [L ->]].
  - left. exact L.
  - right. reflexivity.
Qed.

(** *** The errors of build_schedule *)

Ltac arith_step E :=
  match type of E with
  | bind ?c _ = Raise _ =>
      let A := fresh "A" in
      destruct c eqn:A; cbn [bind] in E;
      [ | injection E as <-; exact (arith_Raise_inv _ _ _ _ _ A) ]
  end.

(** Once both travel times are there, only a conversion can fail. *)
Lemma build_schedule_late_Raise (d ve vf pe pf h we wf te tf : num) (e : exn) :
  travel_time_minutes d ve = Ok te -> travel_time_minutes d vf = Ok tf ->
  build_schedule d ve vf pe pf h we wf = Raise e -> e = OverflowError.
Proof.
  intros T1 T2 E. unfold build_schedule in E. rewrite T1, T2 in E. cbn [bind] in E.
  do 16 arith_step E. discriminate.
Qed.

Lemma build_schedule_Raise_inv (d ve vf pe pf h we wf : num) (e : exn) :
  build_schedule d ve vf pe pf h we wf = Raise e ->
  (e = OverflowError /\
   ~ (Spec.fits d /\ Spec.fits ve /\
      (is_zero ve = true \/ Spec.fits vf /\ is_zero vf = true))) \/
  (e = ZeroDivisionError /\ Spec.fits d /\ Spec.fits ve /\
   (is_zero ve = true \/ Spec.fits vf /\ is_zero vf = true)).
Proof.
  intros E.
  destruct (travel_time_minutes d ve) as [ te | e1 ] eqn:T1.
  - destruct (travel_time_minutes_Ok_inv _ _ _ T1) as (Fd & Fve & Ne).
    destruct (travel_time_minutes d vf) as [ tf | e2 ] eqn:T2.
    + destruct (travel_time_minutes_Ok_inv _ _ _ T2) as (_ & Fvf & Nf).
      left. split; [ apply (build_schedule_late_Raise _ _ _ _ _ _ _ _ _ _ _ T1 T2 E) | ].
      unfold nonzero in *. intros (_ & _ & [Z | [_ Z]]); congruence.
    + unfold build_schedule in E. rewrite T1, T2 in E. cbn [bind] in E.
      injection E as <-.
      destruct (travel_time_minutes_Raise_inv _ _ _ T2) as [[-> [U | U]] | (-> & _ & Fvf & Z)].
      * contradiction.
      * left. split; [ reflexivity | ]. unfold nonzero in Ne.
        intros (_ & _ & [Z | [F _]]); [ congruence | contradiction ].
      * right. auto 8.
  - unfold build_schedule in E. rewrite T1 in E. cbn [bind] in E. injection E as <-.
    destruct (travel_time_minutes_Raise_inv _ _ _ T1) as [[-> U] | (-> & Fd & Fve & Z)].
    + left. split; [ reflexivity | ]. intros (Fd & Fve & _). destruct U; contradiction.
    + right. auto 8.
Qed.

Lemma build_schedule_zero_speed (d ve vf pe pf h we wf : num) :
  Spec.fits d -> Spec.fits ve ->
  is_zero ve = true \/ Spec.fits vf /\ is_zero vf = true ->
  build_schedule d ve vf pe pf h we wf = Raise ZeroDivisionError.
Proof.
  intros Fd Fve Z. unfold build_schedule, travel_time_minutes, float_mul, float_truediv.
  rewrite (to_float_fits _ Fd), (to_float_fits _ Fve). cbn [bind].
  destruct (is_zero ve) eqn:Ze; [ reflexivity | ].
  destruct Z as [Z | [Fvf Z]]; [ discriminate | ].
  cbn [bind]. rewrite (to_float_fits _ Fvf), Z. reflexivity.
Qed.

Lemma build_schedule_convertible (d ve vf pe pf h we wf : num) :
  convertible d ve vf pe pf h we wf -> nonzero ve -> nonzero vf ->
  build_schedule d ve vf pe pf h we wf =
  let te := Spec.travelTime d ve in
  let tf := Spec.travelTime d vf in
  let A := plan_A_of pe pf h we wf te tf in
  let B := plan_B_of pe pf h we wf te tf in
  Ok (select_best A B, A, B, (te, tf)).
Proof.
  intros (Fd & Fve & Fvf & Fpe & Fpf & Fh & Fwe & Fwf).
  apply build_schedule_fits; assumption.
Qed.

Lemma valid_input_nonzero (d ve vf h we wf : num) :
  valid_input d ve vf h we wf -> nonzero ve /\ nonzero vf.
Proof.
  intros (_ & He & Hf & _). split; apply positive_nonzero; assumption.
Qed.

Lemma plan_A_of_planA (pe pf h we wf te tf : num) :
  Spec.planA pe pf h we wf te tf (plan_A_of pe pf h we wf te tf).
Proof.
  unfold Spec.planA, Spec.delay, plan_A_of.
  cbn [dep_exp arr_exp dep_fre arr_fre delay_exp delay_fre score].
  repeat split; try apply max_the_later; apply max_zero_minus_diag.
Qed.

Lemma plan_B_of_planB (pe pf h we wf te tf : num) :
  Spec.planB pe pf h we wf te tf (plan_B_of pe pf h we wf te tf).
Proof.
  unfold Spec.planB, Spec.delay, plan_B_of.
  cbn [dep_exp arr_exp dep_fre arr_fre delay_exp delay_fre score].
  repeat split; try apply max_the_later; apply max_zero_minus_diag.
Qed.

(* ================================================================== *)
(** ** The reference formulas *)

(** The hypotheses of a concrete call, settled by evaluation. *)
Ltac by_evaluation :=
  repeat match goal with
         | |- _ /\ _ => split
         | |- valid_input _ _ _ _ _ _ => unfold valid_input
         | |- convertible _ _ _ _ _ _ _ _ => unfold convertible
         | |- Spec.fits _ => first [ exact I | vm_compute; reflexivity ]
         | |- Spec.lt _ _ => vm_compute; reflexivity
         | |- Spec.le _ _ => first [ left; vm_compute; reflexivity
                                   | right; vm_compute; reflexivity ]
         end.

(** C1.  For every valid input whose arguments all convert to float,
    [build_schedule] returns, the two travel times are the binary64
    values of [60.0 * distance / speed], and the two plans follow the
    reference formulas, read in Python's arithmetic: in Plan A the
    express leaves as planned with delay 0.0, arrives at its departure
    plus its travel time, the freight leaves at [max] of its planned
    time and the express arrival plus headway; Plan B is the same with
    the roles swapped; each delay is [max(0.0, actual - planned)] and
    each score is the weighted sum of the two delays. *)
Theorem build_schedule_reference_formulas (d ve vf pe pf h we wf : num) :
  valid_input d ve vf h we wf ->
  convertible d ve vf pe pf h we wf ->
  exists best A B,
    build_schedule d ve vf pe pf h we wf =
      Ok (best, A, B, (Spec.travelTime d ve, Spec.travelTime d vf)) /\
    Spec.planA pe pf h we wf (Spec.travelTime d ve) (Spec.travelTime d vf) A /\
    Spec.planB pe pf h we wf (Spec.travelTime d ve) (Spec.travelTime d vf) B.
Proof.
  intros V C. destruct (valid_input_nonzero _ _ _ _ _ _ V) as [Ne Nf].
  rewrite (build_schedule_convertible _ _ _ _ _ _ _ _ C Ne Nf). cbv zeta.
  do 3 eexists. split; [ reflexivity | ].
  split; [ apply plan_A_of_planA | apply plan_B_of_planB ].
Qed.

Lemma build_schedule_reference_formulas_witness :
  exists best A B,
    build_schedule (Float 40) (Float 110) (Float 40) (Int 622) (Int 600)
                   (Float 3) (Float 3) (Float 1) =
      Ok (best, A, B, (Spec.travelTime (Float 40) (Float 110),
                       Spec.travelTime (Float 40) (Float 40))) /\
    Spec.planA (Int 622) (Int 600) (Float 3) (Float 3) (Float 1)
      (Spec.travelTime (Float 40) (Float 110)) (Spec.travelTime (Float 40) (Float 40)) A /\
    Spec.planB (Int 622) (Int 600) (Float 3) (Float 3) (Float 1)
      (Spec.travelTime (Float 40) (Float 110)) (Spec.travelTime (Float 40) (Float 40)) B.
Proof.
  apply (build_schedule_reference_formulas
           (Float 40) (Float 110) (Float 40) (Int 622) (Int 600)
           (Float 3) (Float 3) (Float 1)).
  - by_evaluation.
  - by_evaluation.
Defined.

(** The claim as the specification words it does not hold.  With a
    planned departure of [10 ^ 400] minutes, an int, the input is
    valid and [build_schedule] raises [OverflowError]; and the travel
    time of 40 km at 110 km/h is the float just below [60 * 40 / 110],
    not that number. *)
Lemma reference_formulas_not_computed :
  valid_input (Int 40) (Int 110) (Int 40) (Int 3) (Int 3) (Int 1) /\
  build_schedule (Int 40) (Int 110) (Int 40) (Int (10 ^ 400)) (Int 600)
                 (Int 3) (Int 3) (Int 1) = Raise OverflowError /\
  exists t, travel_time_minutes (Int 40) (Int 110) = Ok t /\
            Spec.lt (value t) (Real (60 * 40 / 110)).
Proof.
  split; [ | split ].
  - by_evaluation.
  - vm_compute. reflexivity.
  - exists (Float 0x1.5d1745d1745d1p+4). split; vm_compute; reflexivity.
Qed.

(* ================================================================== *)
(** ** Headway *)

(** C3.  For every valid input whose arguments all convert to float,
    in each plan the leading train leaves exactly as planned, and the
    trailing train leaves at [max] of its planned time and the float
    sum of the leading arrival and the headway: never before that sum
    and never before its own plan; when neither is a NaN, at or after
    both. *)
Theorem build_schedule_headway_respected (d ve vf pe pf h we wf : num) :
  valid_input d ve vf h we wf ->
  convertible d ve vf pe pf h we wf ->
  exists best A B t,
    build_schedule d ve vf pe pf h we wf = Ok (best, A, B, t) /\
    (* Plan A: the express leads *)
    dep_exp A = pe /\
    Spec.the_later pf (Spec.plus (arr_exp A) h) (dep_fre A) /\
    ~ Spec.lt (value (dep_fre A)) (value (Spec.plus (arr_exp A) h)) /\
    ~ Spec.lt (value (dep_fre A)) (value pf) /\
    (Spec.ordered pf -> Spec.ordered (Spec.plus (arr_exp A) h) ->
     Spec.le (value (Spec.plus (arr_exp A) h)) (value (dep_fre A)) /\
     Spec.le (value pf) (value (dep_fre A))) /\
    (* Plan B: the freight leads *)
    dep_fre B = pf /\
    Spec.the_later pe (Spec.plus (arr_fre B) h) (dep_exp B) /\
    ~ Spec.lt (value (dep_exp B)) (value (Spec.plus (arr_fre B) h)) /\
    ~ Spec.lt (value (dep_exp B)) (value pe) /\
    (Spec.ordered pe -> Spec.ordered (Spec.plus (arr_fre B) h) ->
     Spec.le (value (Spec.plus (arr_fre B) h)) (value (dep_exp B)) /\
     Spec.le (value pe) (value (dep_exp B))).
Proof.
  intros V C. destruct (valid_input_nonzero _ _ _ _ _ _ V) as [Ne Nf].
  rewrite (build_schedule_convertible _ _ _ _ _ _ _ _ C Ne Nf). cbv zeta.
  do 4 eexists. split; [ reflexivity | ].
  unfold plan_A_of, plan_B_of.
  cbn [dep_exp arr_exp dep_fre arr_fre delay_exp delay_fre score].
  split; [ reflexivity | ].
  split; [ apply max_the_later | ].
  split; [ apply max_not_lt_r | ].
  split; [ apply max_not_lt_l | ].
  split; [ intros Ha Hb; destruct (max_le_both _ _ Ha Hb); auto | ].
  split; [ reflexivity | ].
  split; [ apply max_the_later | ].
  split; [ apply max_not_lt_r | ].
  split; [ apply max_not_lt_l | ].
  intros Ha Hb; destruct (max_le_both _ _ Ha Hb); auto.
Qed.

Lemma build_schedule_headway_respected_witness :
  exists best A B t,
    build_schedule (Float 40) (Float 110) (Float 40) (Int 622) (Int 600)
                   (Float 0) (Float 3) (Float 1) = Ok (best, A, B, t) /\
    ~ Spec.lt (value (dep_fre A)) (value (Spec.plus (arr_exp A) (Float 0))) /\
    ~ Spec.lt (value (dep_exp B)) (value (Spec.plus (arr_fre B) (Float 0))).
Proof.
  destruct (build_schedule_headway_respected
              (Float 40) (Float 110) (Float 40) (Int 622) (Int 600)
              (Float 0) (Float 3) (Float 1))
    as (best & A & B & t & E & _ & _ & HA & _ & _ & _ & _ & HB & _).
  - by_evaluation.
  - by_evaluation.
  - exists best, A, B, t. auto.
Defined.

(** The headway of the specification is about the exact sum.  With
    both departures planned at minute [6e18], where consecutive floats
    are 1024 apart, the travel time and the headway are absorbed: the
    freight of Plan A leaves when the express arrives, less than three
    minutes before arrival plus headway. *)
Lemma headway_lost_in_rounding :
  valid_input (Float 40) (Float 110) (Float 40) (Float 3) (Float 3) (Float 1) /\
  exists best A B t arrival departure,
    build_schedule (Float 40) (Float 110) (Float 40) (Float 6e18) (Float 6e18)
                   (Float 3) (Float 3) (Float 1) = Ok (best, A, B, t) /\
    value (arr_exp A) = Real arrival /\
    value (dep_fre A) = Real departure /\
    departure < arrival + 3.
Proof.
  split.
  - by_evaluation.
  - do 6 eexists. split; [ vm_compute; reflexivity | ].
    split; [ vm_compute; reflexivity | ].
    split; [ vm_compute; reflexivity | ].
    vm_compute. reflexivity.
Qed.

(* ================================================================== *)
(** ** No failure on valid inputs *)

(** C4.  For every valid input whose arguments all convert to float,
    both calls of [travel_time_minutes] return the binary64 value of
    [60.0 * distance / speed], and [build_schedule] returns: it raises
    no exception. *)
Theorem build_schedule_cannot_fail (d ve vf pe pf h we wf : num) :
  valid_input d ve vf h we wf ->
  convertible d ve vf pe pf h we wf ->
  travel_time_minutes d ve = Ok (Spec.travelTime d ve) /\
  travel_time_minutes d vf = Ok (Spec.travelTime d vf) /\
  Py.succeeds (build_schedule d ve vf pe pf h we wf) /\
  (forall e, build_schedule d ve vf pe pf h we wf <> Raise e).
Proof.
  intros V C. destruct (valid_input_nonzero _ _ _ _ _ _ V) as [Ne Nf].
  pose proof (build_schedule_convertible _ _ _ _ _ _ _ _ C Ne Nf) as E. cbv zeta in E.
  destruct C as (Fd & Fve & Fvf & _).
  split; [ apply travel_time_minutes_fits; assumption | ].
  split; [ apply travel_time_minutes_fits; assumption | ].
  split; [ eexists; exact E | ].
  intros e. rewrite E. discriminate.
Qed.

Lemma build_schedule_cannot_fail_witness :
  Py.succeeds (build_schedule (Float 1) (Float 160) (Float 20) (Int 0) (Int 1439)
                              (Float 15) (Float 5) (Float 1)).
Proof.
  apply (build_schedule_cannot_fail (Float 1) (Float 160) (Float 20) (Int 0) (Int 1439)
                                    (Float 15) (Float 5) (Float 1)).
  - by_evaluation.
  - by_evaluation.
Defined.

(** Validity alone is not enough: a planned departure of [10 ^ 400]
    minutes, or a distance of [2 ^ 1024] km, both ints, are valid and
    raise [OverflowError]. *)
Lemma build_schedule_can_fail :
  valid_input (Float 40) (Float 110) (Float 40) (Float 3) (Float 3) (Float 1) /\
  build_schedule (Float 40) (Float 110) (Float 40) (Int 622) (Int (10 ^ 400))
                 (Float 3) (Float 3) (Float 1) = Raise OverflowError /\
  valid_input (Int (2 ^ 1024)) (Float 110) (Float 40) (Float 3) (Float 3) (Float 1) /\
  travel_time_minutes (Int (2 ^ 1024)) (Float 110) = Raise OverflowError.
Proof.
  split; [ | split; [ | split ] ].
  - by_evaluation.
  - vm_compute. reflexivity.
  - by_evaluation.
  - vm_compute. reflexivity.
Qed.

(* ================================================================== *)
(** ** Delays *)

Lemma build_schedule_Ok_plans (d ve vf pe pf h we wf : num) best A B t :
  build_schedule d ve vf pe pf h we wf = Ok (best, A, B, t) ->
  A = plan_A_of pe pf h we wf (Spec.travelTime d ve) (Spec.travelTime d vf) /\
  B = plan_B_of pe pf h we wf (Spec.travelTime d ve) (Spec.travelTime d vf) /\
  best = select_best A B /\
  t = (Spec.travelTime d ve, Spec.travelTime d vf).
Proof.
  intros E. destruct (build_schedule_Ok_inv _ _ _ _ _ _ _ _ _ E) as (C & Ne & Nf).
  rewrite (build_schedule_convertible _ _ _ _ _ _ _ _ C Ne Nf) in E. cbv zeta in E.
  injection E as <- <- <- <-. repeat split.
Qed.

(** C6.  For every valid input, in both plans that [build_schedule]
    returns, and so in the plan it selects, the delay of each train is
    at least zero; and it does return when the arguments all convert
    to float. *)
Theorem build_schedule_delays_nonneg (d ve vf pe pf h we wf : num) :
  valid_input d ve vf h we wf ->
  (convertible d ve vf pe pf h we wf ->
   Py.succeeds (build_schedule d ve vf pe pf h we wf)) /\
  (forall best A B t,
      build_schedule d ve vf pe pf h we wf = Ok (best, A, B, t) ->
      Spec.le (Real 0) (value (delay_exp A)) /\
      Spec.le (Real 0) (value (delay_fre A)) /\
      Spec.le (Real 0) (value (delay_exp B)) /\
      Spec.le (Real 0) (value (delay_fre B)) /\
      Spec.le (Real 0) (value (delay_exp best)) /\
      Spec.le (Real 0) (value (delay_fre best))).
Proof.
  intros V. split.
  - intros C. destruct (valid_input_nonzero _ _ _ _ _ _ V) as [Ne Nf].
    rewrite (build_schedule_convertible _ _ _ _ _ _ _ _ C Ne Nf). cbv zeta.
    eexists. reflexivity.
  - intros best A B t E.
    destruct (build_schedule_Ok_plans _ _ _ _ _ _ _ _ _ _ _ _ E) as (EA & EB & Eb & _).
    assert (HA : Spec.le (Real 0) (value (delay_exp A)) /\
                 Spec.le (Real 0) (value (delay_fre A))).
    { rewrite EA. unfold plan_A_of. cbn [delay_exp delay_fre].
      split; apply max_zero_nonneg. }
    assert (HB : Spec.le (Real 0) (value (delay_exp B)) /\
                 Spec.le (Real 0) (value (delay_fre B))).
    { rewrite EB. unfold plan_B_of. cbn [delay_exp delay_fre].
      split; apply max_zero_nonneg. }
    destruct HA as [HA1 HA2], HB as [HB1 HB2].
    repeat split; try assumption;
      rewrite Eb; unfold select_best; destruct (Py.le (score A) (score B)); assumption.
Qed.

Lemma build_schedule_delays_nonneg_witness :
  exists best A B t,
    build_schedule (Float 40) (Float 110) (Float 40) (Int 622) (Int 600)
                   (Float 3) (Float 3) (Float 1) = Ok (best, A, B, t) /\
    Spec.le (Real 0) (value (delay_fre A)) /\
    Spec.le (Real 0) (value (delay_exp B)).
Proof.
  assert (V : valid_input (Float 40) (Float 110) (Float 40) (Float 3) (Float 3) (Float 1)).
  { by_evaluation. }
  destruct (build_schedule_delays_nonneg
              (Float 40) (Float 110) (Float 40) (Int 622) (Int 600)
              (Float 3) (Float 3) (Float 1) V) as [S D].
  destruct S as [[[[best A] B] t] E].
  - by_evaluation.
  - exists best, A, B, t. split; [ exact E | ].
    destruct (D best A B t E) as (_ & H1 & H2 & _). auto.
Defined.

(* ================================================================== *)
(** ** The selection *)

Lemma select_best_le (A B : plan) :
  Spec.le (value (score A)) (value (score B)) -> select_best A B = A.
Proof.
  intros H. unfold select_best. apply le_value in H. rewrite H. reflexivity.
Qed.

Lemma select_best_not_le (A B : plan) :
  ~ Spec.le (value (score A)) (value (score B)) -> select_best A B = B.
Proof.
  intros H. unfold select_best. destruct (Py.le (score A) (score B)) eqn:E; [ | reflexivity ].
  apply le_value in E. contradiction.
Qed.

Lemma lt_not_le (u v : xreal) : Spec.lt v u -> ~ Spec.le u v.
Proof.
  unfold Spec.lt, Spec.le. rewrite (xcompare_antisym u v).
  destruct (xcompare u v) as [ [ | | ] | ]; cbn; intros H [K | K]; congruence.
Qed.

Lemma build_schedule_best (d ve vf pe pf h we wf : num) best A B t :
  build_schedule d ve vf pe pf h we wf = Ok (best, A, B, t) ->
  best = select_best A B.
Proof.
  intros E. destruct (build_schedule_Ok_inv _ _ _ _ _ _ _ _ _ E) as (C & Ne & Nf).
  rewrite (build_schedule_convertible _ _ _ _ _ _ _ _ C Ne Nf) in E. cbv zeta in E.
  injection E as <- <- <- _. reflexivity.
Qed.

(** C2.  The selection returns Plan A when its score is at most Plan
    B's and Plan B otherwise, so a tie goes to Plan A; what it returns
    is one of the two plans it was given, unchanged, and it is the plan
    [build_schedule] reports as best. *)
Theorem select_best_correct (A B : plan) :
  (Spec.le (value (score A)) (value (score B)) -> select_best A B = A) /\
  (~ Spec.le (value (score A)) (value (score B)) -> select_best A B = B) /\
  (Spec.lt (value (score B)) (value (score A)) -> select_best A B = B) /\
  (xcompare (value (score A)) (value (score B)) = Some Eq -> select_best A B = A) /\
  (select_best A B = A \/ select_best A B = B) /\
  (forall d ve vf pe pf h we wf best t,
      build_schedule d ve vf pe pf h we wf = Ok (best, A, B, t) ->
      best = select_best A B).
Proof.
  split; [ apply select_best_le | ].
  split; [ apply select_best_not_le | ].
  split; [ intros H; apply select_best_not_le, lt_not_le, H | ].
  split; [ intros H; apply select_best_le; right; exact H | ].
  split.
  - unfold select_best. destruct (Py.le (score A) (score B)); auto.
  - intros. eapply build_schedule_best; eassumption.
Qed.

(* ================================================================== *)
(** ** Scenario 1 *)

(** The run of the scenario, whichever way its numbers are given. *)
Lemma scenario_1_run (d ve vf pe pf h we wf : num) :
  scenario_1_input d ve vf pe pf h we wf ->
  build_schedule d ve vf pe pf h we wf =
  let A := Plan name_A pe (Float 0x1.41e8ba2e8ba2fp+9) (Float 0x1.4368ba2e8ba2fp+9)
                (Float 0x1.6168ba2e8ba2fp+9) (Float 0) (Float 0x1.768ba2e8ba2f0p+5)
                (Float 0x1.768ba2e8ba2f0p+5) in
  let B := Plan name_B (Float 663) (Float 0x1.5668ba2e8ba2fp+9) pf (Float 660)
                (Float 41) (Float 0) (Float 123) in
  Ok (A, A, B, (Float 0x1.5d1745d1745d1p+4, Float 60)).
Proof.
  intros (Hd & Hve & Hvf & Hpe & Hpf & Hh & Hwe & Hwf).
  destruct Hd as [-> | ->], Hve as [-> | ->], Hvf as [-> | ->], Hpe as [-> | ->],
           Hpf as [-> | ->], Hh as [-> | ->], Hwe as [-> | ->], Hwf as [-> | ->];
    vm_compute; reflexivity.
Qed.

(** C5.  Distance 40 km, express 110 km/h, freight 40 km/h, headway 3,
    planned departures 622 and 600, weights 3 and 1, each given as an
    int or as a float.  The travel times are 21.818181818181817 (21.82
    to two places) and 60.  Plan A: express 622 to 643.82, freight
    held to [max(600, 646.82)], which is 646.82, and arriving 706.82,
    freight delay and score 46.82.  Plan B: freight 600 to 660,
    express held to [max(622, 663)], which is 663, express delay 41,
    score 123.  Plan A is selected.  The figures with decimals are the
    floats the code computes, quoted to two places. *)
Theorem scenario_1 (d ve vf pe pf h we wf : num) :
  scenario_1_input d ve vf pe pf h we wf ->
  exists best A B te tf,
    build_schedule d ve vf pe pf h we wf = Ok (best, A, B, (te, tf)) /\
    (te = Float 0x1.5d1745d1745d1p+4 /\ hundredths te = Some 2182%Z) /\
    tf = Float 60 /\
    (* Plan A *)
    (dep_exp A = pe /\ worth (dep_exp A) 622) /\
    (arr_exp A = Float 0x1.41e8ba2e8ba2fp+9 /\ hundredths (arr_exp A) = Some 64382%Z) /\
    (Spec.the_later pf (Spec.plus (arr_exp A) h) (dep_fre A) /\
     hundredths (Spec.plus (arr_exp A) h) = Some 64682%Z) /\
    (dep_fre A = Float 0x1.4368ba2e8ba2fp+9 /\ hundredths (dep_fre A) = Some 64682%Z) /\
    (arr_fre A = Float 0x1.6168ba2e8ba2fp+9 /\ hundredths (arr_fre A) = Some 70682%Z) /\
    delay_exp A = Float 0 /\
    (delay_fre A = Float 0x1.768ba2e8ba2f0p+5 /\ hundredths (delay_fre A) = Some 4682%Z) /\
    (score A = Float 0x1.768ba2e8ba2f0p+5 /\ hundredths (score A) = Some 4682%Z) /\
    (* Plan B *)
    (dep_fre B = pf /\ worth (dep_fre B) 600) /\
    arr_fre B = Float 660 /\
    (Spec.the_later pe (Spec.plus (arr_fre B) h) (dep_exp B) /\
     Spec.plus (arr_fre B) h = Float 663) /\
    dep_exp B = Float 663 /\
    delay_exp B = Float 41 /\
    delay_fre B = Float 0 /\
    score B = Float 123 /\
    (* selection *)
    best = A /\ name best = name_A.
Proof.
  intros H. rewrite (scenario_1_run _ _ _ _ _ _ _ _ H).
  destruct H as (_ & _ & _ & Hpe & Hpf & Hh & _).
  do 5 eexists. split; [ reflexivity | ].
  cbn [dep_exp arr_exp dep_fre arr_fre delay_exp delay_fre score name].
  destruct Hpe as [-> | ->], Hpf as [-> | ->], Hh as [-> | ->];
    repeat match goal with |- _ /\ _ => split end;
    first [ vm_compute; reflexivity | left; split; vm_compute; reflexivity ].
Qed.

Lemma scenario_1_witness :
  exists best A B te tf,
    build_schedule (Float 40) (Float 110) (Float 40) (Int 622) (Int 600)
                   (Float 3) (Float 3) (Float 1) = Ok (best, A, B, (te, tf)) /\
    hundredths te = Some 2182%Z /\ best = A.
Proof.
  destruct (scenario_1 (Float 40) (Float 110) (Float 40) (Int 622) (Int 600)
                       (Float 3) (Float 3) (Float 1))
    as (best & A & B & te & tf & E & [_ Hte] & H).
  - unfold scenario_1_input. repeat split; auto.
  - exists best, A, B, te, tf. repeat split; [ exact E | exact Hte | apply H ].
Defined.

(* ================================================================== *)
(** ** Default weights *)

(** C10.  The two weights are optional, with defaults 3.0 for the
    express and 1.0 for the freight: a call that leaves them out
    returns what the call with weights 3.0 and 1.0 returns. *)
Theorem build_schedule_default_weights (d ve vf pe pf h : num) :
  build_schedule_call d ve vf pe pf h None None =
    build_schedule_call d ve vf pe pf h (Some (Float 3)) (Some (Float 1)) /\
  build_schedule_call d ve vf pe pf h None None =
    build_schedule d ve vf pe pf h (Float 3) (Float 1) /\
  (forall w, build_schedule_call d ve vf pe pf h (Some w) None =
             build_schedule d ve vf pe pf h w (Float 1)) /\
  (forall w, build_schedule_call d ve vf pe pf h None (Some w) =
             build_schedule d ve vf pe pf h (Float 3) w).
Proof. repeat split. Qed.

(* ================================================================== *)
(** ** The exceptions of build_schedule *)

(** X1.  [build_schedule] returns exactly when its eight arguments
    all convert to float and neither speed is zero.  It raises
    [ZeroDivisionError] exactly when the distance and the express
    speed convert and either the express speed is zero, or the freight
    speed converts and is zero; every other failure is the
    [OverflowError] of an int too large for a float.  Nothing else is
    validated: signs are not looked at. *)
Theorem build_schedule_raises_exactly (d ve vf pe pf h we wf : num) :
  (Py.succeeds (build_schedule d ve vf pe pf h we wf) <->
   convertible d ve vf pe pf h we wf /\ ~ Spec.zero ve /\ ~ Spec.zero vf) /\
  (build_schedule d ve vf pe pf h we wf = Raise ZeroDivisionError <->
   Spec.fits d /\ Spec.fits ve /\ (Spec.zero ve \/ Spec.fits vf /\ Spec.zero vf)) /\
  (forall e, build_schedule d ve vf pe pf h we wf = Raise e ->
             e = ZeroDivisionError \/ e = OverflowError) /\
  build_schedule d ve vf pe pf h we wf <> Raise ValueError.
Proof.
  split; [ split | split; [ split | split ] ].
  - intros [r E]. destruct (build_schedule_Ok_inv _ _ _ _ _ _ _ _ _ E) as (C & Ne & Nf).
    split; [ exact C | ]. split; apply nonzero_not_zero; assumption.
  - intros (C & Ne & Nf). apply nonzero_not_zero in Ne, Nf.
    rewrite (build_schedule_convertible _ _ _ _ _ _ _ _ C Ne Nf). cbv zeta.
    eexists. reflexivity.
  - intros E. destruct (build_schedule_Raise_inv _ _ _ _ _ _ _ _ _ E)
      as [[X _] | (_ & Fd & Fve & Z)]; [ discriminate | ].
    rewrite !is_zero_value in Z. auto.
  - intros (Fd & Fve & Z). apply build_schedule_zero_speed; try assumption.
    rewrite !is_zero_value. exact Z.
  - intros e E. destruct (build_schedule_Raise_inv _ _ _ _ _ _ _ _ _ E)
      as [[-> _] | [-> _]]; auto.
  - intros E. destruct (build_schedule_Raise_inv _ _ _ _ _ _ _ _ _ E)
      as [[X _] | [X _]]; discriminate.
Qed.

(* ================================================================== *)
(** ** The recommended plan *)

(** X2.  Of the two plans [build_schedule] returns, the one it
    recommends is one of them, and neither plan scores strictly less
    than it; Plan B is recommended only when Plan A's score is not at
    most Plan B's.  The plans carry the names of their options. *)
Theorem build_schedule_best_is_cheapest (d ve vf pe pf h we wf : num) :
  (convertible d ve vf pe pf h we wf -> ~ Spec.zero ve -> ~ Spec.zero vf ->
   Py.succeeds (build_schedule d ve vf pe pf h we wf)) /\
  (forall best A B t,
      build_schedule d ve vf pe pf h we wf = Ok (best, A, B, t) ->
      (best = A \/ best = B) /\
      ~ Spec.lt (value (score A)) (value (score best)) /\
      ~ Spec.lt (value (score B)) (value (score best)) /\
      (best = B -> ~ Spec.le (value (score A)) (value (score B))) /\
      name A = name_A /\ name B = name_B).
Proof.
  split.
  - intros C Ne Nf. apply nonzero_not_zero in Ne, Nf.
    rewrite (build_schedule_convertible _ _ _ _ _ _ _ _ C Ne Nf). cbv zeta.
    eexists. reflexivity.
  - intros best A B t E.
    destruct (build_schedule_Ok_plans _ _ _ _ _ _ _ _ _ _ _ _ E) as (EA & EB & Eb & _).
    assert (NA : name A = name_A) by (rewrite EA; reflexivity).
    assert (NB : name B = name_B) by (rewrite EB; reflexivity).
    assert (AB : A <> B).
    { intros X. rewrite X, NB in NA. discriminate. }
    rewrite Eb. unfold select_best.
    destruct (Py.le (score A) (score B)) eqn:L.
    + apply le_value in L.
      split; [ left; reflexivity | ].
      split; [ apply lt_irrefl | ].
      split; [ intros H; exact (lt_not_le _ _ H L) | ].
      split; [ intros X; destruct (AB X) | ].
      split; assumption.
    + assert (N : ~ Spec.le (value (score A)) (value (score B))).
      { intros H. apply le_value in H. congruence. }
      split; [ right; reflexivity | ].
      split; [ intros H; apply N; left; exact H | ].
      split; [ apply lt_irrefl | ].
      split; [ intros _; exact N | ].
      split; assumption.
Qed.



(* ================================================================== *)
(** ** Splitting at the colon *)

Lemma split_nonempty (c : ascii) (s : string) : split c s <> [].
Proof.
  destruct s as [ | x s' ]; cbn [split]; [ discriminate | ].
  destruct (Ascii.eqb x c); [ discriminate | ].
  destruct (split c s'); discriminate.
Qed.

Lemma split_free (c : ascii) (s : string) :
  has_char c s = false -> split c s = [s].
Proof.
  induction s as [ | x s' IH ]; cbn [split has_char]; [ reflexivity | ].
  intros H. apply orb_false_iff in H as [Hx Hs].
  rewrite Hx, (IH Hs). reflexivity.
Qed.

Lemma split_app (c : ascii) (a b : string) :
  has_char c a = false ->
  split c (a ++ String c b) = a :: split c b.
Proof.
  induction a as [ | x a' IH ]; cbn [split has_char append].
  - intros _. rewrite Ascii.eqb_refl. reflexivity.
  - intros H. apply orb_false_iff in H as [Hx Ha].
    rewrite Hx, (IH Ha). reflexivity.
Qed.

Lemma split_one_inv (c : ascii) (s b : string) :
  split c s = [b] -> s = b /\ has_char c s = false.
Proof.
  revert b. induction s as [ | x s' IH ]; intros b; cbn [split has_char].
  - intros E. injection E as <-. split; reflexivity.
  - destruct (Ascii.eqb x c) eqn:Hx.
    + intros E. injection E as _ E. exfalso. exact (split_nonempty _ _ E).
    + destruct (split c s') as [ | p ps ] eqn:Hs.
      * exfalso. exact (split_nonempty _ _ Hs).
      * intros E. injection E as <- ->.
        destruct (IH p eq_refl) as [-> Hf]. split; [ reflexivity | exact Hf ].
Qed.

Lemma split_two_inv (c : ascii) (s a b : string) :
  split c s = [a; b] ->
  s = (a ++ String c b)%string /\ has_char c a = false /\ has_char c b = false.
Proof.
  revert a. induction s as [ | x s' IH ]; intros a; cbn [split].
  - discriminate.
  - destruct (Ascii.eqb x c) eqn:Hx.
    + intros E. injection E as <- E.
      apply Ascii.eqb_eq in Hx. subst x.
      destruct (split_one_inv _ _ _ E) as [-> Hf].
      repeat split; [ exact Hf ].
    + destruct (split c s') as [ | p ps ] eqn:Hs.
      * exfalso. exact (split_nonempty _ _ Hs).
      * intros E. injection E as <- ->.
        destruct (IH p eq_refl) as (-> & Ha & Hb).
        cbn [append has_char]. rewrite Hx, Ha. repeat split. exact Hb.
Qed.

(** [s.split(":")] has exactly two pieces when [s] holds exactly one
    colon, and the pieces are what stands before and after it. *)
Lemma split_two_iff (s a b : string) :
  split colon s = [a; b] <->
  s = (a ++ ":" ++ b)%string /\
  has_char colon a = false /\ has_char colon b = false.
Proof.
  split.
  - apply split_two_inv.
  - intros (-> & Ha & Hb). cbn [append].
    change (String ":" b) with (String colon b).
    rewrite (split_app _ _ _ Ha), (split_free _ _ Hb). reflexivity.
Qed.

(* ================================================================== *)
(** ** Rounding *)

Lemma floor_bounds (x : Q) :
  inject_Z (Qfloor x) <= x /\ x < inject_Z (Qfloor x) + 1.
Proof.
  split; [ apply Qfloor_le | ].
  pose proof (Qlt_floor x) as H. rewrite inject_Z_plus in H. exact H.
Qed.

(** [round] goes down when the fractional part is at most one half and
    up when it is at least one half. *)
Lemma round_cases (x : Q) :
  (Py.round x = Qfloor x /\ x - inject_Z (Qfloor x) <= 1 # 2) \/
  (Py.round x = (Qfloor x + 1)%Z /\ 1 # 2 <= x - inject_Z (Qfloor x)).
Proof.
  unfold Py.round.
  destruct (Qcompare (x - inject_Z (Qfloor x)) (1 # 2)) eqn:E.
  - apply Qeq_alt in E.
    destruct (Z.even (Qfloor x)); [ left | right ]; split; try reflexivity; lra.
  - apply Qlt_alt in E. left. split; [ reflexivity | lra ].
  - apply Qgt_alt in E. right. split; [ reflexivity | lra ].
Qed.

Lemma round_within_half (x : Q) : Qabs (x - inject_Z (Py.round x)) <= 1 # 2.
Proof.
  destruct (floor_bounds x) as [Hl Hu].
  apply Qabs_Qle_condition.
  destruct (round_cases x) as [[-> H] | [-> H]].
  - split; lra.
  - rewrite inject_Z_plus. change (inject_Z 1) with 1. split; lra.
Qed.

Lemma round_closest (x : Q) (z : Z) :
  Qabs (x - inject_Z (Py.round x)) <= Qabs (x - inject_Z z).
Proof.
  destruct (floor_bounds x) as [Hl Hu].
  assert (Hz : inject_Z z <= inject_Z (Qfloor x) \/
               inject_Z (Qfloor x) + 1 <= inject_Z z).
  { destruct (Z_le_gt_dec z (Qfloor x)) as [H | H].
    - left. rewrite <- Zle_Qle. exact H.
    - right. change 1 with (inject_Z 1).
      rewrite <- inject_Z_plus, <- Zle_Qle. lia. }
  destruct (round_cases x) as [[-> H] | [-> H]];
    [ | rewrite inject_Z_plus; change (inject_Z 1) with 1 ];
    apply Qabs_case; intros H1; apply Qabs_case; intros H2; lra.
Qed.

Lemma round_inject_Z (z : Z) : Py.round (inject_Z z) = z.
Proof.
  unfold Py.round. rewrite Qfloor_Z.
  replace (Qcompare (inject_Z z - inject_Z z) (1 # 2)) with Lt; [ reflexivity | ].
  symmetry. apply -> Qlt_alt. lra.
Qed.

Lemma round_up (x : Q) :
  1 # 2 < x - inject_Z (Qfloor x) -> Py.round x = (Qfloor x + 1)%Z.
Proof.
  intros H. unfold Py.round. apply Qgt_alt in H. rewrite H. reflexivity.
Qed.


(* ================================================================== *)
(** ** The characters of a text *)

Lemma N_of_byte (n : N) : (n < 256)%N -> N_of_ascii (Spec.byte n) = n.
Proof. apply N_ascii_embedding. Qed.

Lemma continuation_byte (n : N) :
  (n < 64)%N -> continuation (Spec.byte (128 + n)) = Some n.
Proof.
  intros H. unfold continuation, Spec.byte.
  rewrite N_ascii_embedding by lia.
  destruct (N.leb_spec 128 (128 + n)); [ | lia ].
  destruct (N.ltb_spec (128 + n) 192); [ | lia ].
  cbn [andb]. f_equal. lia.
Qed.

Lemma continuation_inv (b : ascii) (n : N) :
  continuation b = Some n -> (n < 64)%N /\ b = Spec.byte (128 + n).
Proof.
  unfold continuation, Spec.byte.
  destruct (N.leb_spec 128 (N_of_ascii b)); [ | discriminate ].
  destruct (N.ltb_spec (N_of_ascii b) 192); [ | discriminate ].
  cbn [andb]. intros E. injection E as <-. split; [ lia | ].
  replace (128 + (N_of_ascii b - 128))%N with (N_of_ascii b) by lia.
  symmetry. apply ascii_N_embedding.
Qed.

Lemma code_points_utf8 (c : N) (s : string) :
  (c < 1114112)%N ->
  code_points (Spec.utf8 c ++ s) = option_map (cons c) (code_points s).
Proof.
  intros Hc. unfold Spec.utf8.
  destruct (N.ltb_spec c 128) as [H1 | H1].
  - cbn [append code_points]. unfold Spec.byte. rewrite N_ascii_embedding by lia.
    destruct (N.ltb_spec c 128); [ reflexivity | lia ].
  - destruct (N.ltb_spec c 2048) as [H2 | H2].
    + cbn [append code_points]. 
      assert (Hq : (c / 64 < 32)%N) by (apply N.Div0.div_lt_upper_bound; lia).
      assert (Hr : (c mod 64 < 64)%N) by (apply N.mod_lt; discriminate).
      pose proof (N.div_mod c 64 ltac:(discriminate)) as E.
      rewrite !N_of_byte by lia.
      destruct (N.ltb_spec (192 + c / 64) 128); [ lia | ].
      destruct (N.ltb_spec (192 + c / 64) 192); [ lia | ].
      destruct (N.ltb_spec (192 + c / 64) 224); [ | lia ].
      rewrite continuation_byte by assumption.
      replace ((192 + c / 64 - 192) * 64 + c mod 64)%N with c by lia.
      destruct (N.ltb_spec c 128); [ lia | reflexivity ].
    + destruct (N.ltb_spec c 65536) as [H3 | H3].
      * cbn [append code_points].
        assert (Hq : (c / 4096 < 16)%N) by (apply N.Div0.div_lt_upper_bound; lia).
        assert (Hr1 : ((c / 64) mod 64 < 64)%N) by (apply N.mod_lt; discriminate).
        assert (Hr : (c mod 64 < 64)%N) by (apply N.mod_lt; discriminate).
        pose proof (N.div_mod c 64 ltac:(discriminate)) as E.
        pose proof (N.div_mod (c / 64) 64 ltac:(discriminate)) as E1.
        rewrite N.Div0.div_div in E1. change (64 * 64)%N with 4096%N in E1.
        rewrite !N_of_byte by lia.
        destruct (N.ltb_spec (224 + c / 4096) 128); [ lia | ].
        destruct (N.ltb_spec (224 + c / 4096) 192); [ lia | ].
        destruct (N.ltb_spec (224 + c / 4096) 224); [ lia | ].
        destruct (N.ltb_spec (224 + c / 4096) 240); [ | lia ].
        rewrite !continuation_byte by assumption.
        replace (((224 + c / 4096 - 224) * 64 + (c / 64) mod 64) * 64 + c mod 64)%N
          with c by lia.
        destruct (N.ltb_spec c 2048); [ lia | reflexivity ].
      * cbn [append code_points].
        assert (Hq : (c / 262144 < 8)%N) by (apply N.Div0.div_lt_upper_bound; lia).
        assert (Hr2 : ((c / 4096) mod 64 < 64)%N) by (apply N.mod_lt; discriminate).
        assert (Hr1 : ((c / 64) mod 64 < 64)%N) by (apply N.mod_lt; discriminate).
        assert (Hr : (c mod 64 < 64)%N) by (apply N.mod_lt; discriminate).
        pose proof (N.div_mod c 64 ltac:(discriminate)) as E.
        pose proof (N.div_mod (c / 64) 64 ltac:(discriminate)) as E1.
        rewrite N.Div0.div_div in E1. change (64 * 64)%N with 4096%N in E1.
        pose proof (N.div_mod (c / 4096) 64 ltac:(discriminate)) as E2.
        rewrite N.Div0.div_div in E2. change (4096 * 64)%N with 262144%N in E2.
        rewrite !N_of_byte by lia.
        destruct (N.ltb_spec (240 + c / 262144) 128); [ lia | ].
        destruct (N.ltb_spec (240 + c / 262144) 192); [ lia | ].
        destruct (N.ltb_spec (240 + c / 262144) 224); [ lia | ].
        destruct (N.ltb_spec (240 + c / 262144) 240); [ lia | ].
        destruct (N.ltb_spec (240 + c / 262144) 248); [ | lia ].
        rewrite !continuation_byte by assumption.
        replace ((((240 + c / 262144 - 240) * 64 + (c / 4096) mod 64) * 64
                  + (c / 64) mod 64) * 64 + c mod 64)%N with c by lia.
        destruct (N.ltb_spec c 65536); [ lia | ].
        destruct (N.leb_spec 1114112 c); [ lia | ]. reflexivity.
Qed.

Lemma code_points_text_of (cs : list N) :
  Forall (fun c => (c < 1114112)%N) cs -> code_points (Spec.text_of cs) = Some cs.
Proof.
  induction 1 as [ | c cs Hc _ IH ]; [ reflexivity | ].
  cbn [Spec.text_of]. rewrite (code_points_utf8 c _ Hc), IH. reflexivity.
Qed.

Lemma option_map_cons_inv (c : N) (o : option (list N)) (cs : list N) :
  option_map (cons c) o = Some cs -> exists r, o = Some r /\ cs = c :: r.
Proof.
  destruct o as [ r | ]; [ | discriminate ].
  intros E. injection E as <-. exists r. auto.
Qed.

Lemma utf8_1 (b : ascii) :
  (N_of_ascii b < 128)%N -> Spec.utf8 (N_of_ascii b) = String b "".
Proof.
  intros H. unfold Spec.utf8, Spec.byte.
  destruct (N.ltb_spec (N_of_ascii b) 128); [ | lia ].
  rewrite ascii_N_embedding. reflexivity.
Qed.

Lemma byte_of_N (b : ascii) (n : N) : n = N_of_ascii b -> Spec.byte n = b.
Proof. intros ->. apply ascii_N_embedding. Qed.

Lemma utf8_2 (b0 : ascii) (c1 : N) :
  (192 <= N_of_ascii b0 < 224)%N -> (c1 < 64)%N ->
  (128 <= (N_of_ascii b0 - 192) * 64 + c1)%N ->
  Spec.utf8 ((N_of_ascii b0 - 192) * 64 + c1) =
  String b0 (String (Spec.byte (128 + c1)) "").
Proof.
  intros H0 H1 Hc. set (c := ((N_of_ascii b0 - 192) * 64 + c1)%N) in *.
  assert (Eq : (c / 64 = N_of_ascii b0 - 192)%N).
  { symmetry. apply (N.div_unique c 64 _ c1); [ assumption | unfold c; lia ]. }
  assert (Er : (c mod 64 = c1)%N).
  { symmetry. apply (N.mod_unique c 64 (N_of_ascii b0 - 192) c1); [ assumption | unfold c; lia ]. }
  unfold Spec.utf8.
  destruct (N.ltb_spec c 128); [ lia | ].
  destruct (N.ltb_spec c 2048); [ | unfold c in *; lia ].
  rewrite Eq, Er. f_equal. apply byte_of_N. lia.
Qed.

Lemma utf8_3 (b0 : ascii) (c1 c2 : N) :
  (224 <= N_of_ascii b0 < 240)%N -> (c1 < 64)%N -> (c2 < 64)%N ->
  (2048 <= ((N_of_ascii b0 - 224) * 64 + c1) * 64 + c2)%N ->
  Spec.utf8 (((N_of_ascii b0 - 224) * 64 + c1) * 64 + c2) =
  String b0 (String (Spec.byte (128 + c1)) (String (Spec.byte (128 + c2)) "")).
Proof.
  intros H0 H1 H2 Hc.
  set (c := (((N_of_ascii b0 - 224) * 64 + c1) * 64 + c2)%N) in *.
  assert (Eq1 : (c / 64 = (N_of_ascii b0 - 224) * 64 + c1)%N).
  { symmetry. apply (N.div_unique c 64 _ c2); [ assumption | unfold c; lia ]. }
  assert (Er : (c mod 64 = c2)%N).
  { symmetry. apply (N.mod_unique c 64 ((N_of_ascii b0 - 224) * 64 + c1) c2);
      [ assumption | unfold c; lia ]. }
  assert (Eq : (c / 4096 = N_of_ascii b0 - 224)%N).
  { change 4096%N with (64 * 64)%N. rewrite <- N.Div0.div_div, Eq1.
    symmetry. apply (N.div_unique _ 64 _ c1); [ assumption | lia ]. }
  assert (Er1 : ((c / 64) mod 64 = c1)%N).
  { rewrite Eq1. symmetry.
    apply (N.mod_unique _ 64 (N_of_ascii b0 - 224) c1); [ assumption | lia ]. }
  unfold Spec.utf8.
  destruct (N.ltb_spec c 128); [ lia | ].
  destruct (N.ltb_spec c 2048); [ lia | ].
  destruct (N.ltb_spec c 65536); [ | unfold c in *; lia ].
  rewrite Eq, Er, Er1. f_equal. apply byte_of_N. lia.
Qed.

Lemma utf8_4 (b0 : ascii) (c1 c2 c3 : N) :
  (240 <= N_of_ascii b0 < 248)%N -> (c1 < 64)%N -> (c2 < 64)%N -> (c3 < 64)%N ->
  (65536 <= (((N_of_ascii b0 - 240) * 64 + c1) * 64 + c2) * 64 + c3)%N ->
  Spec.utf8 ((((N_of_ascii b0 - 240) * 64 + c1) * 64 + c2) * 64 + c3) =
  String b0 (String (Spec.byte (128 + c1))
    (String (Spec.byte (128 + c2)) (String (Spec.byte (128 + c3)) ""))).
Proof.
  intros H0 H1 H2 H3 Hc.
  set (c := ((((N_of_ascii b0 - 240) * 64 + c1) * 64 + c2) * 64 + c3)%N) in *.
  assert (Eq1 : (c / 64 = ((N_of_ascii b0 - 240) * 64 + c1) * 64 + c2)%N).
  { symmetry. apply (N.div_unique c 64 _ c3); [ assumption | unfold c; lia ]. }
  assert (Er : (c mod 64 = c3)%N).
  { symmetry. apply (N.mod_unique c 64 (((N_of_ascii b0 - 240) * 64 + c1) * 64 + c2) c3);
      [ assumption | unfold c; lia ]. }
  assert (Eq2 : (c / 4096 = (N_of_ascii b0 - 240) * 64 + c1)%N).
  { change 4096%N with (64 * 64)%N. rewrite <- N.Div0.div_div, Eq1.
    symmetry. apply (N.div_unique _ 64 _ c2); [ assumption | lia ]. }
  assert (Er1 : ((c / 64) mod 64 = c2)%N).
  { rewrite Eq1. symmetry.
    apply (N.mod_unique _ 64 ((N_of_ascii b0 - 240) * 64 + c1) c2); [ assumption | lia ]. }
  assert (Eq : (c / 262144 = N_of_ascii b0 - 240)%N).
  { change 262144%N with (4096 * 64)%N. rewrite <- N.Div0.div_div, Eq2.
    symmetry. apply (N.div_unique _ 64 _ c1); [ assumption | lia ]. }
  assert (Er2 : ((c / 4096) mod 64 = c1)%N).
  { rewrite Eq2. symmetry.
    apply (N.mod_unique _ 64 (N_of_ascii b0 - 240) c1); [ assumption | lia ]. }
  unfold Spec.utf8.
  destruct (N.ltb_spec c 128); [ lia | ].
  destruct (N.ltb_spec c 2048); [ lia | ].
  destruct (N.ltb_spec c 65536); [ lia | ].
  rewrite Eq, Er, Er1, Er2. f_equal. apply byte_of_N. lia.
Qed.

Lemma code_points_inv_bounded (n : nat) :
  forall (s : string) (cs : list N),
    (String.length s <= n)%nat -> code_points s = Some cs -> s = Spec.text_of cs.
Proof.
  induction n as [ | n IH ]; intros s cs Hn E.
  - destruct s; [ | cbn in Hn; lia ]. cbn in E. injection E as <-. reflexivity.
  - destruct s as [ | b0 s0 ]; [ cbn in E; injection E as <-; reflexivity | ].
    cbn [code_points] in E. cbn [String.length] in Hn.
    destruct (N.ltb_spec (N_of_ascii b0) 128) as [H1 | H1].
    { apply option_map_cons_inv in E as (r & Er & ->).
      cbn [Spec.text_of]. rewrite (utf8_1 b0 H1). cbn [append]. f_equal.
      apply IH; [ lia | exact Er ]. }
    destruct (N.ltb_spec (N_of_ascii b0) 192) as [H2 | H2]; [ discriminate | ].
    destruct (N.ltb_spec (N_of_ascii b0) 224) as [H3 | H3].
    { destruct s0 as [ | b1 s1 ]; [ discriminate | ].
      destruct (continuation b1) as [ c1 | ] eqn:C1; [ | discriminate ].
      apply continuation_inv in C1 as [L1 ->].
      destruct (N.ltb_spec ((N_of_ascii b0 - 192) * 64 + c1) 128) as [Hc | Hc];
        [ discriminate | ].
      apply option_map_cons_inv in E as (r & Er & ->).
      cbn [Spec.text_of]. rewrite utf8_2 by (try split; assumption).
      cbn [append]. do 2 f_equal. apply IH; [ cbn [String.length] in Hn; lia | exact Er ]. }
    destruct (N.ltb_spec (N_of_ascii b0) 240) as [H4 | H4].
    { destruct s0 as [ | b1 [ | b2 s2 ] ]; try discriminate.
      destruct (continuation b1) as [ c1 | ] eqn:C1; [ | discriminate ].
      destruct (continuation b2) as [ c2 | ] eqn:C2; [ | discriminate ].
      apply continuation_inv in C1 as [L1 ->]. apply continuation_inv in C2 as [L2 ->].
      destruct (N.ltb_spec (((N_of_ascii b0 - 224) * 64 + c1) * 64 + c2) 2048) as [Hc | Hc];
        [ discriminate | ].
      apply option_map_cons_inv in E as (r & Er & ->).
      cbn [Spec.text_of]. rewrite utf8_3 by (try split; assumption).
      cbn [append]. do 3 f_equal. apply IH; [ cbn [String.length] in Hn; lia | exact Er ]. }
    destruct (N.ltb_spec (N_of_ascii b0) 248) as [H5 | H5]; [ | discriminate ].
    destruct s0 as [ | b1 [ | b2 [ | b3 s3 ] ] ]; try discriminate.
    destruct (continuation b1) as [ c1 | ] eqn:C1; [ | discriminate ].
    destruct (continuation b2) as [ c2 | ] eqn:C2; [ | discriminate ].
    destruct (continuation b3) as [ c3 | ] eqn:C3; [ | discriminate ].
    apply continuation_inv in C1 as [L1 ->]. apply continuation_inv in C2 as [L2 ->].
    apply continuation_inv in C3 as [L3 ->].
    destruct (N.ltb_spec ((((N_of_ascii b0 - 240) * 64 + c1) * 64 + c2) * 64 + c3) 65536)
      as [Hc | Hc]; [ discriminate | ].
    cbn [orb] in E.
    destruct (N.leb_spec 1114112 ((((N_of_ascii b0 - 240) * 64 + c1) * 64 + c2) * 64 + c3));
      [ discriminate | ].
    apply option_map_cons_inv in E as (r & Er & ->).
    cbn [Spec.text_of]. rewrite utf8_4 by (try split; assumption).
    cbn [append]. do 4 f_equal. apply IH; [ cbn [String.length] in Hn; lia | exact Er ].
Qed.

Lemma code_points_inv (s : string) (cs : list N) :
  code_points s = Some cs -> s = Spec.text_of cs.
Proof. apply (code_points_inv_bounded (String.length s)). apply Nat.le_refl. Qed.

(* ================================================================== *)
(** ** What int accepts *)

(** *** The character classes *)

Lemma zero_digits_agree : Spec.zero_digits = decimal_zeros.
Proof. reflexivity. Qed.

Lemma zeros_apart (z z' : N) :
  In z decimal_zeros -> In z' decimal_zeros ->
  z = z' \/ (z + 10 <= z')%N \/ (z' + 10 <= z)%N.
Proof.
  assert (H : forallb (fun a => forallb (fun b =>
              (a =? b) || (a + 10 <=? b) || (b + 10 <=? a))%N decimal_zeros)
              decimal_zeros = true) by (vm_compute; reflexivity).
  intros Hz Hz'. rewrite forallb_forall in H. specialize (H z Hz).
  rewrite forallb_forall in H. specialize (H z' Hz').
  rewrite !orb_true_iff, N.eqb_eq, !N.leb_le in H. tauto.
Qed.

Lemma zeros_bounds (z : N) :
  In z decimal_zeros -> (z = 48 \/ 127 <= z)%N /\ (z + 10 <= 1114112)%N.
Proof.
  assert (H : forallb (fun a => ((a =? 48) || (127 <=? a)) && (a + 10 <=? 1114112))%N
              decimal_zeros = true) by (vm_compute; reflexivity).
  intros Hz. rewrite forallb_forall in H. specialize (H z Hz).
  rewrite andb_true_iff, orb_true_iff, N.eqb_eq, !N.leb_le in H. exact H.
Qed.

Lemma to_decimal_spec (c d : N) :
  to_decimal c = Some d <->
  exists z, In z decimal_zeros /\ (z <= c < z + 10)%N /\ d = (c - z)%N.
Proof.
  unfold to_decimal. split.
  - destruct (find _ decimal_zeros) as [ z | ] eqn:F; [ | discriminate ].
    cbn [option_map]. intros E. injection E as <-.
    apply find_some in F as [Hz Hc].
    rewrite andb_true_iff, N.leb_le, N.ltb_lt in Hc. exists z. auto.
  - intros (z & Hz & Hc & ->).
    destruct (find _ decimal_zeros) as [ z' | ] eqn:F.
    + apply find_some in F as [Hz' Hc'].
      rewrite andb_true_iff, N.leb_le, N.ltb_lt in Hc'.
      destruct (zeros_apart z z' Hz Hz') as [-> | H]; [ reflexivity | lia ].
    + apply (find_none _ _ F) in Hz.
      rewrite andb_false_iff, N.leb_gt, N.ltb_ge in Hz. lia.
Qed.

Lemma is_unicode_space_In (c : N) :
  is_unicode_space c = true -> In c unicode_spaces.
Proof.
  unfold is_unicode_space. rewrite existsb_exists.
  intros (x & Hx & E). apply N.eqb_eq in E. subst x. exact Hx.
Qed.

Lemma space_not_decimal (c : N) : is_unicode_space c = true -> to_decimal c = None.
Proof.
  assert (H : forallb (fun a => match to_decimal a with None => true | Some _ => false end)
              unicode_spaces = true) by (vm_compute; reflexivity).
  intros Hc. apply is_unicode_space_In in Hc.
  rewrite forallb_forall in H. specialize (H c Hc).
  destruct (to_decimal c); [ discriminate | reflexivity ].
Qed.

(** What [to_ascii] makes of a character. *)
Lemma to_ascii_cases (c : N) :
  ((c < 127)%N /\ to_ascii c = c) \/
  ((127 <= c)%N /\ is_unicode_space c = true /\ to_ascii c = 32%N) \/
  ((127 <= c)%N /\ is_unicode_space c = false /\
   exists d, to_decimal c = Some d /\ (d < 10)%N /\ to_ascii c = (48 + d)%N) \/
  ((127 <= c)%N /\ is_unicode_space c = false /\ to_decimal c = None /\
   to_ascii c = 63%N).
Proof.
  unfold to_ascii. destruct (N.ltb_spec c 127) as [H | H]; [ auto | ].
  right. destruct (is_unicode_space c) eqn:S; [ auto | ].
  right. destruct (to_decimal c) as [ d | ] eqn:D; [ left | right; auto ].
  repeat split; try assumption. exists d. repeat split.
  apply to_decimal_spec in D as (z & _ & Hc & ->). lia.
Qed.

Lemma is_space_spec (c : N) :
  is_space c = true <-> ((9 <= c <= 13)%N \/ c = 32%N).
Proof.
  unfold is_space. rewrite orb_true_iff, andb_true_iff, !N.leb_le, N.eqb_eq. tauto.
Qed.

Lemma digit_val_spec (c : N) (d : Z) :
  digit_val c = Some d <-> (48 <= c <= 57)%N /\ d = Z.of_N (c - 48).
Proof.
  unfold digit_val.
  destruct ((48 <=? c) && (c <=? 57))%N eqn:E.
  - rewrite andb_true_iff, !N.leb_le in E. split.
    + intros X. injection X as <-. auto.
    + intros [_ ->]. reflexivity.
  - rewrite andb_false_iff, !N.leb_gt in E. split; [ discriminate | lia ].
Qed.

Lemma blank_class (c : N) : is_space (to_ascii c) = true <-> Spec.blank c.
Proof.
  split.
  - intros H. apply is_space_spec in H. unfold Spec.blank, Spec.blanks. cbn [In].
    destruct (to_ascii_cases c)
      as [[L E] | [(L & S & E) | [(L & S & d & D & Ld & E) | (L & S & D & E)]]];
      rewrite E in H.
    + lia.
    + apply is_unicode_space_In in S. unfold unicode_spaces in S. cbn [In] in S. lia.
    + lia.
    + lia.
  - unfold Spec.blank, Spec.blanks. cbn [In]. intros H.
    repeat (destruct H as [<- | H]; [ vm_compute; reflexivity | ]);
      try contradiction.
Qed.

Lemma digit_class (c : N) (d : Z) :
  digit_val (to_ascii c) = Some d <-> Spec.decimal_digit c d.
Proof.
  unfold Spec.decimal_digit. rewrite zero_digits_agree, digit_val_spec. split.
  - intros [H ->].
    destruct (to_ascii_cases c)
      as [[L E] | [(L & S & E) | [(L & S & d & D & Ld & E) | (L & S & D & E)]]];
      rewrite E in *; try lia.
    + exists 48%N. repeat split; try lia. left. reflexivity.
    + apply to_decimal_spec in D as (z & Hz & Hc & ->).
      exists z. repeat split; try lia; assumption.
  - intros (z & Hz & Hc & ->).
    assert (D : to_decimal c = Some (c - z)%N).
    { apply to_decimal_spec. exists z. auto. }
    destruct (zeros_bounds z Hz) as [B _].
    destruct (to_ascii_cases c)
      as [[L E] | [(L & S & E) | [(L & S & d & D' & Ld & E) | (L & S & D' & E)]]];
      rewrite E.
    + assert (z = 48%N) by lia. subst z. split; [ lia | reflexivity ].
    + rewrite (space_not_decimal c S) in D. discriminate.
    + rewrite D in D'. injection D' as <-. split; [ lia | f_equal; lia ].
    + rewrite D in D'. discriminate.
Qed.

Lemma to_ascii_punct (c k : N) :
  (k = 43 \/ k = 45 \/ k = 95)%N -> (to_ascii c = k <-> c = k).
Proof.
  intros Hk. split.
  - intros H.
    destruct (to_ascii_cases c)
      as [[L E] | [(L & S & E) | [(L & S & d & D & Ld & E) | (L & S & D & E)]]];
      rewrite E in H; lia.
  - intros ->. destruct Hk as [-> | [-> | ->]]; reflexivity.
Qed.

Lemma to_ascii_eqb (c k : N) :
  (k = 43 \/ k = 45 \/ k = 95)%N -> (to_ascii c =? k)%N = (c =? k)%N.
Proof.
  intros Hk. destruct (N.eqb_spec c k) as [E | E].
  - apply N.eqb_eq, to_ascii_punct; assumption.
  - apply N.eqb_neq. intros H. apply E, (to_ascii_punct c k Hk), H.
Qed.

(** *** Leading and trailing blanks *)

Lemma lstrip_inv (cs : list N) :
  exists lead rest,
    cs = lead ++ rest /\ Forall Spec.blank lead /\
    lstrip (map to_ascii cs) = map to_ascii rest /\
    match rest with
    | [] => True
    | c :: _ => is_space (to_ascii c) = false
    end.
Proof.
  induction cs as [ | c cs (lead & rest & -> & Hl & E & Hr) ].
  - exists [], []. repeat split. constructor.
  - cbn [map lstrip]. destruct (is_space (to_ascii c)) eqn:S.
    + exists (c :: lead), rest. repeat split; try assumption.
      constructor; [ apply blank_class, S | exact Hl ].
    + exists [], (c :: lead ++ rest). repeat split; [ constructor | exact S ].
Qed.

Lemma lstrip_blank (lead rest : list N) :
  Forall Spec.blank lead ->
  match rest with
  | [] => True
  | c :: _ => is_space (to_ascii c) = false
  end ->
  lstrip (map to_ascii (lead ++ rest)) = map to_ascii rest.
Proof.
  intros Hl Hr. induction Hl as [ | c lead Hc _ IH ].
  - destruct rest as [ | c rest ]; [ reflexivity | ].
    cbn [app map lstrip]. rewrite Hr. reflexivity.
  - cbn [app map lstrip]. apply blank_class in Hc. rewrite Hc. exact IH.
Qed.

Lemma lstrip_nil (cs : list N) :
  lstrip (map to_ascii cs) = [] <-> Forall Spec.blank cs.
Proof.
  split.
  - destruct (lstrip_inv cs) as (lead & rest & -> & Hl & E & Hr).
    rewrite E. destruct rest as [ | c rest ]; [ | discriminate ].
    intros _. rewrite app_nil_r. exact Hl.
  - intros H. rewrite <- (app_nil_r cs). rewrite (lstrip_blank cs [] H I). reflexivity.
Qed.

(** *** The digits *)

Lemma scan_stops (acc count : Z) (trail : list N) :
  stops trail ->
  scan acc count true (map to_ascii trail) = Some (acc, count, map to_ascii trail).
Proof.
  destruct trail as [ | c trail ]; [ reflexivity | ].
  intros [D U]. cbn [map scan]. rewrite D.
  destruct (N.eqb_spec (to_ascii c) 95); [ contradiction | reflexivity ].
Qed.

Lemma scan_numeral (body : list N) (ds : list Z) :
  Spec.numeral body ds ->
  forall acc count prev trail,
    stops trail ->
    scan acc count prev (map to_ascii (body ++ trail)) =
    Some (fold_left step ds acc, (count + Z.of_nat (List.length ds))%Z,
          map to_ascii trail).
Proof.
  induction 1 as [ c d Hd | c d cs ds Hd _ IH | c d cs ds Hd _ IH ];
    intros acc count prev trail Ht; apply digit_class in Hd.
  - cbn [app map scan]. rewrite Hd. rewrite (scan_stops _ _ _ Ht).
    cbn [fold_left List.length]. reflexivity.
  - cbn [app map scan]. rewrite Hd. rewrite (IH _ _ true trail Ht).
    cbn [fold_left List.length]. do 2 f_equal. unfold step. f_equal. lia.
  - cbn [app map scan]. rewrite Hd.
    change (to_ascii Spec.underscore) with 95%N.
    cbn [digit_val N.leb N.compare Pos.compare Pos.compare_cont andb N.eqb Pos.eqb].
    rewrite (IH _ _ false trail Ht).
    cbn [fold_left List.length]. do 2 f_equal. unfold step. f_equal. lia.
Qed.

Lemma scan_inv (cs : list N) :
  forall acc count prev n count' rest,
    scan acc count prev (map to_ascii cs) = Some (n, count', rest) ->
    exists body trail ds,
      cs = body ++ trail /\ rest = map to_ascii trail /\ stops trail /\
      n = fold_left step ds acc /\
      count' = (count + Z.of_nat (List.length ds))%Z /\
      (Spec.numeral body ds \/
       prev = true /\
       (body = [] /\ ds = [] \/
        exists body', body = Spec.underscore :: body' /\ Spec.numeral body' ds)).
Proof.
  induction cs as [ | c cs IH ]; intros acc count prev n count' rest E.
  - cbn [map scan] in E. destruct prev; [ | discriminate ].
    injection E as <- <- <-. exists [], [], []. cbn.
    repeat split; try lia. right. auto.
  - cbn [map scan] in E. destruct (digit_val (to_ascii c)) as [ d | ] eqn:D.
    + apply IH in E as (body & trail & ds & -> & -> & Ht & -> & -> & H).
      apply digit_class in D.
      exists (c :: body), trail, (d :: ds). cbn [fold_left List.length].
      repeat split; try assumption; try lia. left.
      destruct H as [H | [_ [[-> ->] | (body' & -> & H)]]].
      * apply Spec.numeral_more; assumption.
      * apply Spec.numeral_one; assumption.
      * apply Spec.numeral_sep; assumption.
    + destruct (N.eqb_spec (to_ascii c) 95) as [U | U].
      * destruct prev; [ | discriminate ].
        apply IH in E as (body & trail & ds & -> & -> & Ht & -> & -> & H).
        apply (to_ascii_punct c 95) in U; [ | auto ]. subst c.
        exists (95%N :: body), trail, ds.
        repeat split; try assumption. right. split; [ reflexivity | ]. right.
        exists body. split; [ reflexivity | ].
        destruct H as [H | [X _]]; [ exact H | discriminate ].
      * destruct prev; [ | discriminate ]. injection E as <- <- <-.
        exists [], (c :: cs), []. cbn [app fold_left List.length map stops].
        repeat split; try assumption; try lia. right. auto.
Qed.

Lemma numeral_head (body : list N) (ds : list Z) :
  Spec.numeral body ds ->
  exists c d body', body = c :: body' /\ Spec.decimal_digit c d.
Proof. destruct 1; eauto. Qed.

Lemma digit_not_space (c : N) (d : Z) :
  digit_val c = Some d -> is_space c = false /\ (c =? 45)%N = false /\ (c =? 43)%N = false.
Proof.
  intros H. apply digit_val_spec in H as [H _].
  repeat split; [ apply not_true_is_false; rewrite is_space_spec; lia
                | apply N.eqb_neq; lia | apply N.eqb_neq; lia ].
Qed.

Lemma space_stops (c : N) : is_space c = true -> digit_val c = None /\ c <> 95%N.
Proof.
  intros H. apply is_space_spec in H. split; [ | lia ].
  destruct (digit_val c) as [ d | ] eqn:D; [ | reflexivity ].
  apply digit_val_spec in D. lia.
Qed.

Lemma blanks_stop (trail : list N) : Forall Spec.blank trail -> stops trail.
Proof.
  destruct 1 as [ | c trail Hc _ ]; [ exact I | ].
  apply blank_class in Hc. apply space_stops, Hc.
Qed.

(** *** The literal *)

Lemma parse_literal (cs : list N) (z : Z) :
  Spec.integer_literal cs z -> parse (map to_ascii cs) = Some z.
Proof.
  intros (lead & sign & body & trail & ds & -> & Hl & Ht & Hb & Hn & Hs).
  pose proof (scan_numeral body ds Hb 0%Z 0%Z false trail (blanks_stop _ Ht)) as Sc.
  destruct (numeral_head body ds Hb) as (c & d & body' & -> & Hc).
  apply digit_class in Hc. destruct (digit_not_space _ _ Hc) as (S & M & P).
  assert (Hcount : (max_str_digits <? 0 + Z.of_nat (List.length ds))%Z = false).
  { apply Z.ltb_ge. unfold max_str_digits. lia. }
  assert (Htrail : lstrip (map to_ascii trail) = []) by (apply lstrip_nil, Ht).
  unfold parse.
  destruct Hs as [[[-> | ->] ->] | [-> ->]].
  - rewrite lstrip_blank; [ | exact Hl | exact S ].
    cbn [app map] in Sc. cbn [app map signed]. rewrite M, P, Sc, Hcount, Htrail.
    reflexivity.
  - rewrite lstrip_blank; [ | exact Hl | reflexivity ].
    cbn [app map] in Sc. cbn [app map signed].
    change (to_ascii 43) with 43%N. cbn [N.eqb Pos.eqb].
    rewrite Sc, Hcount, Htrail. reflexivity.
  - rewrite lstrip_blank; [ | exact Hl | reflexivity ].
    cbn [app map] in Sc. cbn [app map signed].
    change (to_ascii 45) with 45%N. cbn [N.eqb Pos.eqb].
    rewrite Sc, Hcount, Htrail. reflexivity.
Qed.

Lemma literal_parse (cs : list N) (z : Z) :
  parse (map to_ascii cs) = Some z -> Spec.integer_literal cs z.
Proof.
  unfold parse. destruct (lstrip_inv cs) as (lead & rest & -> & Hl & -> & Hr).
  intros E.
  assert (G : forall (negative : bool) (sign text : list N),
             match scan 0 0 false (map to_ascii text) with
             | Some (n, count, rest) =>
                 if (max_str_digits <? count)%Z then None
                 else match lstrip rest with
                      | [] => Some (if negative then (- n)%Z else n)
                      | _ :: _ => None
                      end
             | None => None
             end = Some z ->
             (negative = true /\ sign = [45%N] \/
              negative = false /\ (sign = [] \/ sign = [43%N])) ->
             Spec.integer_literal (lead ++ sign ++ text) z).
  { intros negative sign text H Hsign.
    destruct (scan 0 0 false (map to_ascii text)) as [ [[n count] rest'] | ] eqn:Sc;
      [ | discriminate ].
    destruct (Z.ltb_spec max_str_digits count) as [ | Hcount ]; [ discriminate | ].
    apply scan_inv in Sc as (body & trail & ds & -> & -> & _ & -> & -> & Hb).
    destruct Hb as [Hb | [X _]]; [ | discriminate ].
    destruct (lstrip (map to_ascii trail)) eqn:T; [ | discriminate ].
    apply lstrip_nil in T. injection H as <-.
    exists lead, sign, body, trail, ds.
    split; [ reflexivity | ].
    split; [ exact Hl | ].
    split; [ exact T | ].
    split; [ exact Hb | ].
    split; [ unfold max_str_digits in Hcount; lia | ].
    unfold Spec.number. fold step.
    destruct Hsign as [[-> ->] | [-> Hs]]; [ right | left ]; auto. }
  destruct rest as [ | c rest ].
  - apply (G false [] []); [ exact E | auto ].
  - cbn [map signed] in E. rewrite !to_ascii_eqb in E by auto.
    destruct (N.eqb_spec c 45) as [-> | M].
    + apply (G true [45%N] rest); [ exact E | auto ].
    + destruct (N.eqb_spec c 43) as [-> | P].
      * apply (G false [43%N] rest); [ exact E | auto ].
      * apply (G false [] (c :: rest)); [ exact E | auto ].
Qed.

Lemma parse_spec (cs : list N) (z : Z) :
  parse (map to_ascii cs) = Some z <-> Spec.integer_literal cs z.
Proof. split; [ apply literal_parse | apply parse_literal ]. Qed.

Lemma blank_plain (c : N) : Spec.blank c -> plain c.
Proof.
  unfold Spec.blank, Spec.blanks, plain. cbn [In]. lia.
Qed.

Lemma digit_plain (c : N) (d : Z) : Spec.decimal_digit c d -> plain c.
Proof.
  intros (z & Hz & Hc & _). rewrite zero_digits_agree in Hz.
  destruct (zeros_bounds z Hz) as [B U]. unfold plain. lia.
Qed.

Lemma numeral_plain (body : list N) (ds : list Z) :
  Spec.numeral body ds -> Forall plain body.
Proof.
  induction 1 as [ c d Hd | c d cs ds Hd _ IH | c d cs ds Hd _ IH ];
    apply digit_plain in Hd.
  - constructor; [ exact Hd | constructor ].
  - constructor; assumption.
  - constructor; [ exact Hd | ]. constructor; [ | exact IH ].
    unfold plain, Spec.underscore. lia.
Qed.

Lemma integer_literal_plain (cs : list N) (z : Z) :
  Spec.integer_literal cs z -> Forall plain cs.
Proof.
  intros (lead & sign & body & trail & ds & -> & Hl & Ht & Hb & _ & Hs).
  rewrite !Forall_app. repeat split.
  - eapply Forall_impl; [ apply blank_plain | exact Hl ].
  - destruct Hs as [[[-> | ->] _] | [-> _]]; constructor; try constructor;
      unfold plain; lia.
  - apply (numeral_plain body ds Hb).
  - eapply Forall_impl; [ apply blank_plain | exact Ht ].
Qed.

Lemma has_char_app (c : ascii) (a b : string) :
  has_char c (a ++ b) = has_char c a || has_char c b.
Proof.
  induction a as [ | x a IH ]; [ reflexivity | ].
  cbn [append has_char]. rewrite IH. apply orb_assoc.
Qed.

Lemma byte_not_colon (n : N) :
  (n < 256)%N -> n <> 58%N -> Ascii.eqb (Spec.byte n) colon = false.
Proof.
  intros Hn Hc. apply Ascii.eqb_neq. intros E.
  apply (f_equal N_of_ascii) in E. rewrite (N_of_byte n Hn) in E.
  apply Hc. exact E.
Qed.

Lemma utf8_no_colon (c : N) : plain c -> has_char colon (Spec.utf8 c) = false.
Proof.
  intros [Hc Hn]. unfold Spec.utf8.
  assert (Hr : forall x, (x mod 64 < 64)%N) by (intros; apply N.mod_lt; discriminate).
  pose proof (Hr c). pose proof (Hr (c / 64)%N). pose proof (Hr (c / 4096)%N).
  pose proof (N.le_0_l (c mod 64)). pose proof (N.le_0_l ((c / 64) mod 64)).
  pose proof (N.le_0_l ((c / 4096) mod 64)). pose proof (N.le_0_l (c / 64)).
  pose proof (N.le_0_l (c / 4096)). pose proof (N.le_0_l (c / 262144)).
  destruct (N.ltb_spec c 128).
  - cbn [has_char]. rewrite byte_not_colon by lia. reflexivity.
  - destruct (N.ltb_spec c 2048).
    + assert ((c / 64 < 32)%N) by (apply N.Div0.div_lt_upper_bound; lia).
      cbn [has_char]. rewrite (byte_not_colon (192 + c / 64)) by lia.
      rewrite (byte_not_colon (128 + c mod 64)) by lia.
      reflexivity.
    + destruct (N.ltb_spec c 65536).
      * assert ((c / 4096 < 16)%N) by (apply N.Div0.div_lt_upper_bound; lia).
        cbn [has_char]. rewrite (byte_not_colon (224 + c / 4096)) by lia.
        rewrite (byte_not_colon (128 + (c / 64) mod 64)) by lia.
        rewrite (byte_not_colon (128 + c mod 64)) by lia.
        reflexivity.
      * assert ((c / 262144 < 8)%N) by (apply N.Div0.div_lt_upper_bound; lia).
        cbn [has_char]. rewrite (byte_not_colon (240 + c / 262144)) by lia.
        rewrite (byte_not_colon (128 + (c / 4096) mod 64)) by lia.
        rewrite (byte_not_colon (128 + (c / 64) mod 64)) by lia.
        rewrite (byte_not_colon (128 + c mod 64)) by lia.
        reflexivity.
Qed.

Lemma text_of_no_colon (cs : list N) :
  Forall plain cs -> has_char colon (Spec.text_of cs) = false.
Proof.
  induction 1 as [ | c cs Hc _ IH ]; [ reflexivity | ].
  cbn [Spec.text_of]. rewrite has_char_app, (utf8_no_colon c Hc), IH. reflexivity.
Qed.

(** [int] accepts exactly the integer literals. *)
Lemma int_literal_spec (s : string) (z : Z) :
  int_literal s = Some z <-> Spec.integer s z.
Proof.
  unfold int_literal, Spec.integer. split.
  - destruct (code_points s) as [ cs | ] eqn:E; [ | discriminate ].
    intros H. exists cs. split; [ apply code_points_inv, E | apply parse_spec, H ].
  - intros (cs & -> & H).
    rewrite code_points_text_of.
    + apply parse_spec, H.
    + eapply Forall_impl; [ | apply (integer_literal_plain cs z H) ].
      intros c [Hc _]. exact Hc.
Qed.

Lemma integer_no_colon (s : string) (z : Z) :
  Spec.integer s z -> has_char colon s = false.
Proof.
  intros (cs & -> & H). apply text_of_no_colon, (integer_literal_plain cs z H).
Qed.

(* ================================================================== *)
(** ** Clock texts *)

Lemma Z_below (P : Z -> Prop) (n : nat) :
  (forall k, (k < n)%nat -> P (Z.of_nat k)) ->
  forall z, (0 <= z < Z.of_nat n)%Z -> P z.
Proof.
  intros H z Hz. rewrite <- (Z2Nat.id z) by lia. apply H. lia.
Qed.

(** A statement about every number below one hundred, settled by
    evaluating it at each of them. *)
Ltac below_100 :=
  let k := fresh "k" in
  let Hk := fresh "Hk" in
  apply (Z_below _ 100); intros k Hk;
  do 100 (destruct k as [ | k ]; [ vm_compute; reflexivity | ]);
  exfalso; lia.

Lemma format_02d_two_digits :
  forall n, (0 <= n < 100)%Z -> format_02d n = Spec.two_digits n.
Proof. below_100. Qed.

Lemma int_two_digits :
  forall n, (0 <= n < 100)%Z -> Py.int (Spec.two_digits n) = Ok n.
Proof. below_100. Qed.

Lemma two_digits_no_colon :
  forall n, (0 <= n < 100)%Z -> has_char colon (Spec.two_digits n) = false.
Proof. below_100. Qed.

Lemma minutes_to_hhmm_clock (m : Q) :
  minutes_to_hhmm m = Spec.clock (Py.round m).
Proof.
  unfold minutes_to_hhmm, Spec.clock.
  pose proof (Z.mod_pos_bound (Py.round m / 60) 24 eq_refl).
  pose proof (Z.mod_pos_bound (Py.round m) 60 eq_refl).
  rewrite !format_02d_two_digits by lia. reflexivity.
Qed.

Lemma hhmm_to_minutes_two_digits (h m : Z) :
  (0 <= h < 100)%Z -> (0 <= m < 100)%Z ->
  hhmm_to_minutes (Spec.two_digits h ++ ":" ++ Spec.two_digits m)
  = Ok (h * 60 + m)%Z.
Proof.
  intros Hh Hm. unfold hhmm_to_minutes.
  replace (split colon (Spec.two_digits h ++ ":" ++ Spec.two_digits m))
    with [Spec.two_digits h; Spec.two_digits m].
  - rewrite (int_two_digits h Hh), (int_two_digits m Hm). reflexivity.
  - symmetry. apply split_two_iff.
    repeat split; apply two_digits_no_colon; assumption.
Qed.

(** C7.  For every whole minute [m] from 0 to 1439, parsing the clock
    text that formatting [m] produces gives [m] back. *)
Theorem clock_round_trip (m : Z) :
  (0 <= m <= 1439)%Z ->
  hhmm_to_minutes (minutes_to_hhmm (inject_Z m)) = Ok m.
Proof.
  intros Hm. rewrite minutes_to_hhmm_clock, round_inject_Z. unfold Spec.clock.
  assert (Hq : (0 <= m / 60 < 24)%Z).
  { split; [ apply Z.div_pos; lia | apply Z.div_lt_upper_bound; lia ]. }
  pose proof (Z.mod_pos_bound m 60 eq_refl) as Hr.
  rewrite (Z.mod_small (m / 60) 24 Hq).
  rewrite hhmm_to_minutes_two_digits by lia.
  f_equal. pose proof (Z.div_mod m 60). lia.
Qed.

Lemma clock_round_trip_witness :
  hhmm_to_minutes (minutes_to_hhmm (inject_Z 1439)) = Ok 1439%Z.
Proof. apply (clock_round_trip 1439). lia. Defined.

Lemma round_tie_even (x : Q) :
  x - inject_Z (Qfloor x) == 1 # 2 -> Z.even (Py.round x) = true.
Proof.
  intros H. unfold Py.round. apply Qeq_alt in H. rewrite H.
  destruct (Z.even (Qfloor x)) eqn:E; [ exact E | ].
  rewrite Z.even_add, E. reflexivity.
Qed.

(** C8.  For every minute value [m], [minutes_to_hhmm] formats the
    integer nearest to [m]: that integer is within one half of [m], no
    integer is nearer, a fractional part above one half goes up and is
    not cut off, a fractional part of exactly one half goes to the
    even neighbour, and the text is "HH:MM" of that integer, two
    digits each, with the hour wrapped modulo 24. *)
Theorem minutes_to_hhmm_rounds_then_formats (m : Q) :
  Qabs (m - inject_Z (Py.round m)) <= 1 # 2 /\
  (forall z : Z, Qabs (m - inject_Z (Py.round m)) <= Qabs (m - inject_Z z)) /\
  (1 # 2 < m - inject_Z (Qfloor m) -> Py.round m = (Qfloor m + 1)%Z) /\
  (m - inject_Z (Qfloor m) == 1 # 2 -> Z.even (Py.round m) = true) /\
  minutes_to_hhmm m = Spec.clock (Py.round m) /\
  (0 <= (Py.round m / 60) mod 24 < 24)%Z /\
  (0 <= Py.round m mod 60 < 60)%Z.
Proof.
  split; [ apply round_within_half | ].
  split; [ apply round_closest | ].
  split; [ apply round_up | ].
  split; [ apply round_tie_even | ].
  split; [ apply minutes_to_hhmm_clock | ].
  split; apply Z.mod_pos_bound; reflexivity.
Qed.

(** Quoted from the scenario: 643.8182 is shown as 10:44, not 10:43;
    and a half goes to the even minute. *)
Example minutes_to_hhmm_not_truncated :
  minutes_to_hhmm (7082 # 11) = "10:44"%string /\
  minutes_to_hhmm (1245 # 2) = "10:22"%string /\
  minutes_to_hhmm (1247 # 2) = "10:24"%string /\
  minutes_to_hhmm (-1 # 1) = "23:59"%string.
Proof. repeat split; reflexivity. Qed.

(* ================================================================== *)
(** ** Parsing failures *)

(** What [hhmm_to_minutes] does, by the number of pieces and by what
    each piece denotes. *)
Lemma hhmm_to_minutes_cases (s : string) :
  match split colon s with
  | [a; b] =>
      match int_literal a, int_literal b with
      | Some h, Some m => hhmm_to_minutes s = Ok (h * 60 + m)%Z
      | _, _ => hhmm_to_minutes s = Raise ValueError
      end
  | _ => hhmm_to_minutes s = Raise ValueError
  end.
Proof.
  unfold hhmm_to_minutes, Py.int.
  destruct (split colon s) as [ | a [ | b [ | c r ] ] ]; cbn [bind];
    repeat match goal with
           | |- context [int_literal ?x] => destruct (int_literal x); cbn [bind]
           end; reflexivity.
Qed.

Lemma hhmm_to_minutes_Ok (s : string) (h m : Z) :
  Spec.two_integers s h m -> hhmm_to_minutes s = Ok (h * 60 + m)%Z.
Proof.
  intros (a & b & Es & Ha & Hb).
  pose proof (hhmm_to_minutes_cases s) as C.
  assert (Sp : split colon s = [a; b]).
  { apply split_two_iff. split; [ exact Es | ].
    split; eapply integer_no_colon; eassumption. }
  apply int_literal_spec in Ha, Hb.
  rewrite Sp, Ha, Hb in C. exact C.
Qed.

(** A text on which [hhmm_to_minutes] returns has two pieces, and
    [int] reads both. *)
Lemma hhmm_to_minutes_Ok_pieces (s : string) (z : Z) :
  hhmm_to_minutes s = Ok z ->
  exists a b h m,
    split colon s = [a; b] /\ int_literal a = Some h /\ int_literal b = Some m /\
    z = (h * 60 + m)%Z.
Proof.
  intros E. pose proof (hhmm_to_minutes_cases s) as C.
  destruct (split colon s) as [ | a [ | b [ | c r ] ] ] eqn:Es;
    try (rewrite C in E; discriminate).
  destruct (int_literal a) as [ h | ] eqn:Ha;
    [ destruct (int_literal b) as [ m | ] eqn:Hb | ];
    try (rewrite C in E; discriminate).
  rewrite C in E. injection E as <-.
  exists a, b, h, m. repeat split; assumption.
Qed.

Lemma hhmm_to_minutes_Ok_inv (s : string) (z : Z) :
  hhmm_to_minutes s = Ok z ->
  exists h m, Spec.two_integers s h m /\ z = (h * 60 + m)%Z.
Proof.
  intros E.
  destruct (hhmm_to_minutes_Ok_pieces s z E) as (a & b & h & m & Es & Ha & Hb & ->).
  exists h, m. split; [ | reflexivity ].
  apply split_two_iff in Es as (Es & _ & _).
  exists a, b. split; [ exact Es | ]. split; apply int_literal_spec; assumption.
Qed.

Lemma hhmm_to_minutes_Raise (s : string) (e : exn) :
  hhmm_to_minutes s = Raise e -> e = ValueError.
Proof.
  intros E. pose proof (hhmm_to_minutes_cases s) as C.
  destruct (split colon s) as [ | a [ | b [ | c r ] ] ];
    try (rewrite C in E; injection E as <-; reflexivity).
  destruct (int_literal a); [ destruct (int_literal b) | ];
    rewrite C in E; first [ discriminate | injection E as <-; reflexivity ].
Qed.

(** C9.  [hhmm_to_minutes] fails, with [ValueError], exactly on the
    texts that are not two valid integers with one colon between
    them; on a text that is, with parts [h] and [m], it returns
    [h * 60 + m], whatever the sizes of [h] and [m]. *)
Theorem hhmm_to_minutes_fails_exactly (s : string) :
  (hhmm_to_minutes s = Raise ValueError <->
   ~ exists h m, Spec.two_integers s h m) /\
  (forall e, hhmm_to_minutes s = Raise e -> e = ValueError) /\
  (forall h m, Spec.two_integers s h m ->
               hhmm_to_minutes s = Ok (h * 60 + m)%Z).
Proof.
  split; [ split | split ].
  - intros E (h & m & T). rewrite (hhmm_to_minutes_Ok s h m T) in E. discriminate.
  - intros N. destruct (hhmm_to_minutes s) as [ z | e ] eqn:E.
    + exfalso. apply N.
      destruct (hhmm_to_minutes_Ok_inv s z E) as (h & m & T & _).
      exists h, m. exact T.
    + rewrite (hhmm_to_minutes_Raise s e E). reflexivity.
  - apply hhmm_to_minutes_Raise.
  - apply hhmm_to_minutes_Ok.
Qed.

(** No range is imposed on the two parts. *)
Example hhmm_to_minutes_out_of_range :
  hhmm_to_minutes "99:99" = Ok 6039%Z /\
  hhmm_to_minutes "-1:75" = Ok 15%Z /\
  hhmm_to_minutes " +1_0 : 2_2 " = Ok 622%Z.
Proof. repeat split; reflexivity. Qed.

Example hhmm_to_minutes_malformed :
  hhmm_to_minutes "1022" = Raise ValueError /\
  hhmm_to_minutes "10:22:33" = Raise ValueError /\
  hhmm_to_minutes "10:2x" = Raise ValueError /\
  hhmm_to_minutes "10:2__2" = Raise ValueError /\
  hhmm_to_minutes "10:- 22" = Raise ValueError /\
  hhmm_to_minutes ":22" = Raise ValueError.
Proof. repeat split; reflexivity. Qed.

(** Digits and blanks of other scripts count, and a numeral of more
    than 4300 digits does not. *)
Example hhmm_to_minutes_any_script :
  hhmm_to_minutes "١٠:٢٢" = Ok 622%Z /\
  hhmm_to_minutes "１０:２２" = Ok 622%Z /\
  hhmm_to_minutes "10:２2" = Ok 622%Z /\
  hhmm_to_minutes "10:²2" = Raise ValueError.
Proof. repeat split; vm_compute; reflexivity. Qed.

Example hhmm_to_minutes_digit_limit :
  hhmm_to_minutes (zeros 4300 ++ ":00") = Ok 0%Z /\
  hhmm_to_minutes (zeros 4301 ++ ":00") = Raise ValueError.
Proof. split; vm_compute; reflexivity. Qed.

(* ================================================================== *)
(** ** Round trips and the colon *)

Lemma floor_unique (x : Q) (a : Z) :
  inject_Z a <= x -> x < inject_Z a + 1 -> Qfloor x = a.
Proof.
  intros Hl Hu. destruct (floor_bounds x) as [Fl Fu].
  assert (H1 : (a < Qfloor x + 1)%Z).
  { rewrite Zlt_Qlt, inject_Z_plus. change (inject_Z 1) with 1. lra. }
  assert (H2 : (Qfloor x < a + 1)%Z).
  { rewrite Zlt_Qlt, inject_Z_plus. change (inject_Z 1) with 1. lra. }
  lia.
Qed.

Lemma floor_add_Z (x : Q) (n : Z) : Qfloor (x + inject_Z n) = (Qfloor x + n)%Z.
Proof.
  destruct (floor_bounds x) as [Fl Fu].
  apply floor_unique; rewrite inject_Z_plus; lra.
Qed.

(** Adding an even whole number moves [round] by that number: a tie
    is broken the same way. *)
Lemma round_add_even (x : Q) (n : Z) :
  Py.round (x + inject_Z (2 * n)) = (Py.round x + 2 * n)%Z.
Proof.
  unfold Py.round. rewrite floor_add_Z.
  assert (E : x + inject_Z (2 * n) - inject_Z (Qfloor x + 2 * n)
              == x - inject_Z (Qfloor x)) by (rewrite inject_Z_plus; ring).
  rewrite (Qcompare_comp _ _ E (1 # 2) (1 # 2) (Qeq_refl _)).
  rewrite Z.even_add_mul_2.
  destruct (Qcompare (x - inject_Z (Qfloor x)) (1 # 2)); [ | lia | lia ].
  destruct (Z.even (Qfloor x)); lia.
Qed.

Lemma clock_day (r k : Z) : Spec.clock (r + 1440 * k) = Spec.clock r.
Proof.
  unfold Spec.clock.
  replace ((r + 1440 * k) / 60)%Z with (r / 60 + k * 24)%Z.
  - rewrite Z.mod_add by lia.
    replace (r + 1440 * k)%Z with (r + (24 * k) * 60)%Z by lia.
    rewrite Z.mod_add by lia. reflexivity.
  - replace (r + 1440 * k)%Z with (r + (k * 24) * 60)%Z by lia.
    rewrite Z.div_add by lia. reflexivity.
Qed.

(** X9.  The clock text wraps every day: a minute value and the same
    value any whole number of days later or earlier are printed
    alike. *)
Theorem minutes_to_hhmm_wraps_daily (m : Q) (k : Z) :
  minutes_to_hhmm (m + inject_Z (1440 * k)) = minutes_to_hhmm m.
Proof.
  rewrite !minutes_to_hhmm_clock.
  replace (1440 * k)%Z with (2 * (720 * k))%Z by lia.
  rewrite round_add_even.
  replace (2 * (720 * k))%Z with (1440 * k)%Z by lia.
  apply clock_day.
Qed.

(** X10.  For every minute value, parsing the text that
    [minutes_to_hhmm] prints never fails and gives the rounded value
    reduced to one day, between 0 and 1439. *)
Theorem hhmm_to_minutes_of_minutes_to_hhmm (m : Q) :
  hhmm_to_minutes (minutes_to_hhmm m) = Ok (Py.round m mod 1440)%Z /\
  (0 <= Py.round m mod 1440 < 1440)%Z.
Proof.
  split; [ | apply Z.mod_pos_bound; reflexivity ].
  rewrite minutes_to_hhmm_clock. unfold Spec.clock.
  pose proof (Z.mod_pos_bound (Py.round m / 60) 24 eq_refl).
  pose proof (Z.mod_pos_bound (Py.round m) 60 eq_refl).
  rewrite hhmm_to_minutes_two_digits by lia.
  f_equal. generalize (Py.round m). intros r.
  Z.div_mod_to_equations. lia.
Qed.

(** X11.  A text "HH:MM" with the hour below 24 and the minute below
    60, both written with two digits, is parsed to [60 * HH + MM] and
    printed back as the same text. *)
Theorem minutes_to_hhmm_of_hhmm_to_minutes (h m : Z) :
  (0 <= h < 24)%Z -> (0 <= m < 60)%Z ->
  hhmm_to_minutes (Spec.two_digits h ++ ":" ++ Spec.two_digits m)
    = Ok (h * 60 + m)%Z /\
  minutes_to_hhmm (inject_Z (h * 60 + m))
    = (Spec.two_digits h ++ ":" ++ Spec.two_digits m)%string.
Proof.
  intros Hh Hm. split; [ apply hhmm_to_minutes_two_digits; lia | ].
  rewrite minutes_to_hhmm_clock, round_inject_Z. unfold Spec.clock.
  replace ((h * 60 + m) / 60)%Z with h by (Z.div_mod_to_equations; lia).
  replace ((h * 60 + m) mod 60)%Z with m by (Z.div_mod_to_equations; lia).
  rewrite (Z.mod_small h 24) by lia. reflexivity.
Qed.

Lemma minutes_to_hhmm_of_hhmm_to_minutes_witness :
  hhmm_to_minutes "10:22" = Ok 622%Z /\
  minutes_to_hhmm (inject_Z 622) = "10:22"%string.
Proof.
  apply (minutes_to_hhmm_of_hhmm_to_minutes 10 22); lia.
Defined.

Lemma split_length_app (c : ascii) (a r : string) :
  (1 + List.length (split c r) <= List.length (split c (a ++ String c r)))%nat.
Proof.
  induction a as [ | x a' IH ]; cbn [append split].
  - rewrite Ascii.eqb_refl. cbn [List.length]. lia.
  - destruct (Ascii.eqb x c).
    + cbn [List.length]. lia.
    + destruct (split c (a' ++ String c r)) as [ | p ps ] eqn:E.
      * exfalso. exact (split_nonempty _ _ E).
      * cbn [List.length] in *. lia.
Qed.

Lemma split_length_pos (c : ascii) (s : string) :
  (1 <= List.length (split c s))%nat.
Proof.
  pose proof (split_nonempty c s).
  destruct (split c s); [ contradiction | cbn [List.length]; lia ].
Qed.

(** X12.  [hhmm_to_minutes] returns only on a text with exactly one
    colon: a text without a colon, the empty text included, raises
    [ValueError], and so does a text with two colons or more, such as
    a time with seconds. *)
Theorem hhmm_to_minutes_one_colon (s : string) :
  (has_char colon s = false -> hhmm_to_minutes s = Raise ValueError) /\
  (forall a b c : string,
      s = (a ++ ":" ++ b ++ ":" ++ c)%string ->
      hhmm_to_minutes s = Raise ValueError) /\
  (forall z, hhmm_to_minutes s = Ok z ->
      exists a b, s = (a ++ ":" ++ b)%string /\
                  has_char colon a = false /\ has_char colon b = false).
Proof.
  pose proof (hhmm_to_minutes_cases s) as C.
  split; [ | split ].
  - intros Hf. rewrite (split_free colon s Hf) in C. exact C.
  - intros a b c ->.
    pose proof (split_length_app colon a (b ++ ":" ++ c)) as L1.
    pose proof (split_length_app colon b c) as L2.
    pose proof (split_length_pos colon c) as L3.
    cbn [append] in *. fold colon in *.
    destruct (split colon (a ++ String colon (b ++ String colon c)))
      as [ | p [ | q [ | r l ] ] ]; try exact C.
    cbn [List.length] in L1. lia.
  - intros z E.
    destruct (hhmm_to_minutes_Ok_pieces s z E) as (a & b & _ & _ & Es & _).
    exists a, b. apply split_two_iff, Es.
Qed.
